(** * parodesign: the graph-to-drawing pipeline

    A shallow embedding of the four library files of the repository

      - [lib/diagram-parser.ts]  (extractDiagramFromResponse, validateDiagram,
                                  stripDiagramMarkers)
      - [lib/layout-engine.ts]   (getAutoLayout)
      - [lib/tldraw-helpers.ts]  (getGeoTypeForNode, generateTldrawShapes)
      - [types/graph.ts]         (GraphNode, GraphEdge, GraphModel,
                                  PositionedNode, LayoutResult)

    followed by the properties of the specification that were checked
    against them. *)

From Stdlib Require Import ZArith Floats.PrimFloat List Bool Lia.
From Stdlib Require Import Strings.Ascii Strings.String.
From stdpp Require Import base option list gmap strings.
Import ListNotations.
Local Open Scope Z_scope.
Set Warnings "-register-all,-inexact-float".

(* ===================================================================== *)
(** ** JavaScript strings *)
(* ===================================================================== *)

(** A JavaScript string is a sequence of UTF-16 code units; [indexOf],
    [substring], [length] and the regular-expression engine (without the
    [u] flag) all count code units. *)
Abbreviation code_unit := N (only parsing).
Abbreviation jsstring := (list N) (only parsing).

(** String literals of the source, written as Rocq strings. *)
Definition lit (s : string) : jsstring :=
  map N_of_ascii (list_ascii_of_string s).

Fixpoint str_eqb (a b : jsstring) : bool :=
  match a, b with
  | [], [] => true
  | x :: a', y :: b' => N.eqb x y && str_eqb a' b'
  | _, _ => false
  end.

(** [starts_with p s]: [p] is a prefix of [s]. *)
Fixpoint starts_with (p s : jsstring) : bool :=
  match p, s with
  | [], _ => true
  | x :: p', y :: s' => N.eqb x y && starts_with p' s'
  | _ :: _, [] => false
  end.

(** Position of the first occurrence of [p] in [s], scanning left to right. *)
Fixpoint index_of (p s : jsstring) : option nat :=
  if starts_with p s then Some 0%nat
  else match s with
       | [] => None
       | _ :: s' => option_map S (index_of p s')
       end.

(** [String.prototype.indexOf(searchString)]: the index of the first
    occurrence, or -1. *)
Definition indexOf (s p : jsstring) : Z :=
  match index_of p s with
  | Some i => Z.of_nat i
  | None => -1
  end.

(** [String.prototype.substring(start, end)]: both arguments are clamped
    to [0, length] and swapped when [start > end]. *)
Definition substring (s : jsstring) (start end_ : Z) : jsstring :=
  let len := Z.of_nat (length s) in
  let clamp z := Z.min (Z.max z 0) len in
  let a := clamp start in
  let b := clamp end_ in
  let from := Z.min a b in
  let to := Z.max a b in
  firstn (Z.to_nat (to - from)) (skipn (Z.to_nat from) s).

(** WhiteSpace and LineTerminator code units of ECMAScript, the ones
    [String.prototype.trim] and the regexp class [\s] recognise. *)
Definition is_space (c : code_unit) : bool :=
  let c := Z.of_N c in
  (9 <=? c) && (c <=? 13)
  || (c =? 32) || (c =? 160) || (c =? 5760)
  || (8192 <=? c) && (c <=? 8202)
  || (c =? 8232) || (c =? 8233) || (c =? 8239) || (c =? 8287)
  || (c =? 12288) || (c =? 65279).

Fixpoint trim_start (s : jsstring) : jsstring :=
  match s with
  | c :: s' => if is_space c then trim_start s' else s
  | [] => []
  end.

Definition trim_end (s : jsstring) : jsstring :=
  rev (trim_start (rev s)).

(** [String.prototype.trim]. *)
Definition trim (s : jsstring) : jsstring := trim_end (trim_start s).

(* ===================================================================== *)
(** ** JavaScript values and completions *)
(* ===================================================================== *)

(** Identity of an object or array: [===] on objects compares references,
    so every object value carries the location it lives at.  Two values
    built by [JSON.parse] never share a location; a caller that passes its
    own data may alias. *)
Abbreviation loc := positive (only parsing).

(** The values [validateDiagram] can be handed: plain data, that is what
    [JSON.parse] returns, plus [undefined] and every IEEE double (so NaN
    and the infinities too).  An object is its own-property list, looked up
    front to back. *)
Inductive Value : Type :=
| VUndefined
| VNull
| VBool (b : bool)
| VNum (f : float)
| VStr (s : jsstring)
| VArr (l : loc) (elems : list Value)
| VObj (l : loc) (props : list (jsstring * Value)).

Inductive JsError : Type :=
| TypeError
| SyntaxError.

(** How an evaluation completes: with a value, or by throwing. *)
Inductive Completion (A : Type) : Type :=
| Normal (a : A)
| Throw (e : JsError).
Arguments Normal {A} a.
Arguments Throw {A} e.

Definition bind {A B} (c : Completion A) (k : A -> Completion B) : Completion B :=
  match c with
  | Normal a => k a
  | Throw e => Throw e
  end.

Notation "'do' x <- c ; k" := (bind c (fun x => k))
  (at level 10, x name, c at level 100, k at level 200).

(** [try { body } catch (error) { handler }]. *)
Definition try_catch {A} (body : Completion A) (handler : JsError -> Completion A)
  : Completion A :=
  match body with
  | Normal a => Normal a
  | Throw e => handler e
  end.

(** ToBoolean. *)
Definition truthy (v : Value) : bool :=
  match v with
  | VUndefined | VNull => false
  | VBool b => b
  | VNum f => negb (PrimFloat.eqb f 0%float || PrimFloat.is_nan f)
  | VStr s => match s with [] => false | _ => true end
  | VArr _ _ | VObj _ _ => true
  end.

(** The [typeof] operator. *)
Definition typeof (v : Value) : jsstring :=
  match v with
  | VUndefined => lit "undefined"
  | VNull | VArr _ _ | VObj _ _ => lit "object"
  | VBool _ => lit "boolean"
  | VNum _ => lit "number"
  | VStr _ => lit "string"
  end.

(** [Array.isArray]. *)
Definition isArray (v : Value) : bool :=
  match v with
  | VArr _ _ => true
  | _ => false
  end.

(** IsStrictlyEqual, the [===] operator: doubles by IEEE equality (NaN is
    not equal to itself, +0 equals -0), objects and arrays by reference. *)
Definition strict_eq (a b : Value) : bool :=
  match a, b with
  | VUndefined, VUndefined => true
  | VNull, VNull => true
  | VBool x, VBool y => Bool.eqb x y
  | VNum x, VNum y => PrimFloat.eqb x y
  | VStr x, VStr y => str_eqb x y
  | VArr l _, VArr l' _ => Pos.eqb l l'
  | VObj l _, VObj l' _ => Pos.eqb l l'
  | _, _ => false
  end.

(** SameValueZero, the comparison of [Array.prototype.includes]: as [===]
    except that NaN equals NaN. *)
Definition same_value_zero (a b : Value) : bool :=
  match a, b with
  | VNum x, VNum y => PrimFloat.eqb x y || PrimFloat.is_nan x && PrimFloat.is_nan y
  | _, _ => strict_eq a b
  end.

Definition own_property (props : list (jsstring * Value)) (k : jsstring) : Value :=
  match find (fun p => str_eqb (fst p) k) props with
  | Some p => snd p
  | None => VUndefined
  end.

(** The member access [v.k] for a property name [k] that no built-in
    prototype defines and that is neither an array index nor [length]
    (the parser reads [nodes], [edges], [id], [label], [type], [source]
    and [target] only): a TypeError on [undefined] and [null], the own
    property of an object, [undefined] on everything else. *)
Definition get (v : Value) (k : jsstring) : Completion Value :=
  match v with
  | VUndefined | VNull => Throw TypeError
  | VObj _ props => Normal (own_property props k)
  | _ => Normal VUndefined
  end.

(** [Array.prototype.some] with a callback that may throw. *)
Fixpoint array_some (cb : Value -> Completion bool) (xs : list Value) : Completion bool :=
  match xs with
  | [] => Normal false
  | x :: rest =>
      do b <- cb x;
      if b then Normal true else array_some cb rest
  end.

(** [Array.prototype.includes]. *)
Definition includes (xs : list Value) (v : Value) : bool :=
  existsb (fun x => same_value_zero x v) xs.

(* ===================================================================== *)
(** ** lib/diagram-parser.ts *)
(* ===================================================================== *)

Module DiagramParser.

Definition k_nodes : jsstring := lit "nodes".
Definition k_edges : jsstring := lit "edges".
Definition k_id : jsstring := lit "id".
Definition k_label : jsstring := lit "label".
Definition k_type : jsstring := lit "type".
Definition k_source : jsstring := lit "source".
Definition k_target : jsstring := lit "target".

Definition validTypes : list Value :=
  map (fun s => VStr (lit s))
      ["start"; "process"; "decision"; "end"; "data"; "default"]%string.

(** The outcome of one turn of a [for ... of] body: [Some b] when the body
    executed [return b], [None] when it ran to its end. *)
Definition returned := option bool.

(** [!node.id || !node.label || !node.type], evaluated left to right with
    short circuit. *)
Definition node_fields_missing (node : Value) : Completion bool :=
  do id <- get node k_id;
  if negb (truthy id) then Normal true else
  do label <- get node k_label;
  if negb (truthy label) then Normal true else
  do ty <- get node k_type;
  Normal (negb (truthy ty)).

(** Body of the loop over [diagram.nodes] (source lines 59-70). *)
Definition node_body (node : Value) : Completion returned :=
  do missing <- node_fields_missing node;
  if missing then Normal (Some false) else
  do ty <- get node k_type;
  if negb (includes validTypes ty) then Normal (Some false) else
  Normal None.

Fixpoint nodes_loop (nodes : list Value) : Completion returned :=
  match nodes with
  | [] => Normal None
  | node :: rest =>
      do r <- node_body node;
      match r with
      | Some b => Normal (Some b)
      | None => nodes_loop rest
      end
  end.

(** [!edge.id || !edge.source || !edge.target]. *)
Definition edge_fields_missing (edge : Value) : Completion bool :=
  do id <- get edge k_id;
  if negb (truthy id) then Normal true else
  do source <- get edge k_source;
  if negb (truthy source) then Normal true else
  do target <- get edge k_target;
  Normal (negb (truthy target)).

(** [diagram.nodes.some((n) => n.id === edge[k])]. *)
Definition node_exists (nodes : list Value) (edge : Value) (k : jsstring)
  : Completion bool :=
  array_some (fun n =>
                do nid <- get n k_id;
                do ref <- get edge k;
                Normal (strict_eq nid ref)) nodes.

(** Body of the loop over [diagram.edges] (source lines 73-87). *)
Definition edge_body (nodes : list Value) (edge : Value) : Completion returned :=
  do missing <- edge_fields_missing edge;
  if missing then Normal (Some false) else
  do sourceExists <- node_exists nodes edge k_source;
  do targetExists <- node_exists nodes edge k_target;
  if negb sourceExists || negb targetExists then Normal (Some false) else
  Normal None.

Fixpoint edges_loop (nodes edges : list Value) : Completion returned :=
  match edges with
  | [] => Normal None
  | edge :: rest =>
      do r <- edge_body nodes edge;
      match r with
      | Some b => Normal (Some b)
      | None => edges_loop nodes rest
      end
  end.

(** [validateDiagram(diagram: any): diagram is GraphModel]. *)
Definition validateDiagram (diagram : Value) : Completion bool :=
  if negb (truthy diagram) || negb (str_eqb (typeof diagram) (lit "object"))
  then Normal false else
  do nodes <- get diagram k_nodes;
  if negb (isArray nodes) then Normal false else
  do edges <- get diagram k_edges;
  if negb (isArray edges) then Normal false else
  match nodes, edges with
  | VArr _ ns, VArr _ es =>
      do r <- nodes_loop ns;
      match r with
      | Some b => Normal b
      | None =>
          do r <- edges_loop ns es;
          match r with
          | Some b => Normal b
          | None => Normal true
          end
      end
  | _, _ => Normal false
  end.

Definition startMarker : jsstring := lit "[DIAGRAM_START]".
Definition endMarker : jsstring := lit "[DIAGRAM_END]".

Section Extract.

(** [JSON.parse] is the engine's: it is taken as given, a function from
    the text to the parsed value or a thrown SyntaxError. *)
Variable JSON_parse : jsstring -> Completion Value.

(** [extractDiagramFromResponse(response: string): GraphModel | null];
    [None] is [null].  The two [console] calls have no effect on the
    result and are left out. *)
Definition extractDiagramFromResponse (response : jsstring)
  : Completion (option Value) :=
  try_catch
    (let startIndex := indexOf response startMarker in
     let endIndex := indexOf response endMarker in
     if (startIndex =? -1) || (endIndex =? -1) then Normal None else
     let jsonStr :=
       trim (substring response
                       (startIndex + Z.of_nat (length startMarker))
                       endIndex) in
     do diagram <- JSON_parse jsonStr;
     do valid <- validateDiagram diagram;
     if negb valid then Normal None else
     Normal (Some diagram))
    (fun _ => Normal None).

End Extract.

Definition placeholder : jsstring := lit "[Diagram generated]".

(** The pattern [\[DIAGRAM_START\][\s\S]*?\[DIAGRAM_END\]] tried at the
    head of [s]: the literal start marker, then [[\s\S]*?], which matches
    any code unit and is lazy, so it stops at the first end marker that
    follows.  The result is the length of the match. *)
Definition block_match_here (s : jsstring) : option nat :=
  if starts_with startMarker s then
    match index_of endMarker (skipn (length startMarker) s) with
    | Some k => Some (length startMarker + k + length endMarker)%nat
    | None => None
    end
  else None.

(** One [exec] of the pattern: the leftmost position where it matches,
    with the length of the match there. *)
Fixpoint block_exec (s : jsstring) : option (nat * nat) :=
  match block_match_here s with
  | Some len => Some (0%nat, len)
  | None =>
      match s with
      | [] => None
      | _ :: s' =>
          match block_exec s' with
          | Some (i, len) => Some (S i, len)
          | None => None
          end
      end
  end.

(** [String.prototype.replace] with the pattern under the [g] flag and a
    replacement without [$]: every match, found left to right with the
    search resuming where the previous match ended, gives way to the
    replacement.  A match is never empty, so [fuel] bounds the matches. *)
Fixpoint replace_blocks (fuel : nat) (s : jsstring) : jsstring :=
  match fuel with
  | O => s
  | S fuel' =>
      match block_exec s with
      | None => s
      | Some (i, len) =>
          firstn i s ++ placeholder ++ replace_blocks fuel' (skipn (i + len) s)
      end
  end.

(** [stripDiagramMarkers(response: string): string]. *)
Definition stripDiagramMarkers (response : jsstring) : jsstring :=
  trim (replace_blocks (length response) response).

End DiagramParser.

(* ===================================================================== *)
(** ** types/graph.ts *)
(* ===================================================================== *)

(** Coordinates and sizes are JavaScript numbers, that is IEEE doubles:
    the layout and the shape synthesis add, subtract and halve them with
    the rounding of double arithmetic. *)

(** [GraphNode].  The [type] field is a string at run time; the union of
    string literals is a compile-time annotation. *)
Record GraphNode : Type := {
  node_id : jsstring;
  node_label : jsstring;
  node_type : jsstring;
  node_metadata : option Value
}.

(** [GraphEdge]; [edge_label] is the optional [label]. *)
Record GraphEdge : Type := {
  edge_id : jsstring;
  source : jsstring;
  target : jsstring;
  edge_label : option jsstring
}.

Record GraphModel : Type := {
  nodes : list GraphNode;
  edges : list GraphEdge
}.

(** [PositionedNode extends GraphNode]. *)
Record PositionedNode : Type := {
  base : GraphNode;
  x : float;
  y : float;
  width : float;
  height : float
}.

Record LayoutResult : Type := {
  layout_nodes : list PositionedNode;
  layout_edges : list GraphEdge
}.

(* ===================================================================== *)
(** ** lib/layout-engine.ts *)
(* ===================================================================== *)

Module LayoutEngine.

Definition NODE_WIDTH : float := 180.
Definition NODE_HEIGHT : float := 80.

Inductive Rankdir : Type := TB | BT | LR | RL.

(** [LayoutOptions]: every field is optional. *)
Record LayoutOptions : Type := {
  rankdir : option Rankdir;
  nodesep : option float;
  ranksep : option float;
  nodeWidth : option float;
  nodeHeight : option float
}.

(** The literal [{}], the default of the [options] parameter. *)
Definition no_options : LayoutOptions :=
  {| rankdir := None; nodesep := None; ranksep := None;
     nodeWidth := None; nodeHeight := None |}.

(** *** The part of graphlib's [Graph] that the engine drives *)

Record GraphLabel : Type := {
  gl_rankdir : Rankdir;
  gl_nodesep : float;
  gl_ranksep : float
}.

Record NodeLabel : Type := {
  nl_label : jsstring;
  nl_width : float;
  nl_height : float
}.

(** A directed graph that is neither a multigraph nor compound: the graph
    label, the node labels in insertion order ([None] is a node created
    without a label) and the edges in insertion order. *)
Record DagreGraph : Type := {
  graph_label : option GraphLabel;
  node_labels : list (jsstring * option NodeLabel);
  edge_list : list (jsstring * jsstring)
}.

(** [new dagre.graphlib.Graph()]. *)
Definition new_Graph : DagreGraph :=
  {| graph_label := None; node_labels := []; edge_list := [] |}.

Definition setGraph (g : DagreGraph) (l : GraphLabel) : DagreGraph :=
  {| graph_label := Some l; node_labels := node_labels g; edge_list := edge_list g |}.

Definition hasNode (g : DagreGraph) (v : jsstring) : bool :=
  existsb (fun p => str_eqb (fst p) v) (node_labels g).

(** [setNode(v, value)]: the label of an existing node is replaced, a new
    node is added at the end. *)
Definition setNode (g : DagreGraph) (v : jsstring) (value : NodeLabel) : DagreGraph :=
  {| graph_label := graph_label g;
     node_labels :=
       if hasNode g v
       then map (fun p => if str_eqb (fst p) v then (fst p, Some value) else p)
                (node_labels g)
       else node_labels g ++ [(v, Some value)];
     edge_list := edge_list g |}.

(** [setNode(v)]: an existing node is left alone, a new one has no label. *)
Definition ensureNode (g : DagreGraph) (v : jsstring) : DagreGraph :=
  if hasNode g v then g else
  {| graph_label := graph_label g;
     node_labels := node_labels g ++ [(v, None)];
     edge_list := edge_list g |}.

Definition hasEdge (g : DagreGraph) (v w : jsstring) : bool :=
  existsb (fun e => str_eqb (fst e) v && str_eqb (snd e) w) (edge_list g).

(** [setEdge(v, w)]: an existing edge is left alone; otherwise both ends
    are created when absent and the edge is added. *)
Definition setEdge (g : DagreGraph) (v w : jsstring) : DagreGraph :=
  if hasEdge g v w then g else
  let g := ensureNode (ensureNode g v) w in
  {| graph_label := graph_label g;
     node_labels := node_labels g;
     edge_list := edge_list g ++ [(v, w)] |}.

Section Layout.

(** dagre is a dependency, not code of this repository: [dagre.layout]
    is taken as given.  [dagre_layout g v] is the centre [(x, y)] that
    [dagre.layout(g)] writes into the label of node [v]. *)
Variable dagre_layout : DagreGraph -> jsstring -> float * float.

(** [getAutoLayout(graphModel, options = {})]; [None] is an omitted
    [options] argument. *)
Definition getAutoLayout (graphModel : GraphModel) (options : option LayoutOptions)
  : LayoutResult :=
  let options := default no_options options in
  let rankdir := default TB (rankdir options) in
  let nodesep := default 50%float (nodesep options) in
  let ranksep := default 100%float (ranksep options) in
  let nodeWidth := default NODE_WIDTH (nodeWidth options) in
  let nodeHeight := default NODE_HEIGHT (nodeHeight options) in
  let graph := new_Graph in
  let graph :=
    setGraph graph
      {| gl_rankdir := rankdir; gl_nodesep := nodesep; gl_ranksep := ranksep |} in
  let graph :=
    fold_left
      (fun graph node =>
         setNode graph (node_id node)
           {| nl_label := node_label node;
              nl_width := nodeWidth;
              nl_height := nodeHeight |})
      (nodes graphModel) graph in
  let graph :=
    fold_left (fun graph edge => setEdge graph (source edge) (target edge))
              (edges graphModel) graph in
  let positionedNodes :=
    map (fun node =>
           let nodeWithPosition := dagre_layout graph (node_id node) in
           {| base := node;
              x := (fst nodeWithPosition - nodeWidth / 2)%float;
              y := (snd nodeWithPosition - nodeHeight / 2)%float;
              width := nodeWidth;
              height := nodeHeight |})
        (nodes graphModel) in
  {| layout_nodes := positionedNodes; layout_edges := edges graphModel |}.

End Layout.

End LayoutEngine.

(* ===================================================================== *)
(** ** lib/tldraw-helpers.ts *)
(* ===================================================================== *)

Module TldrawHelpers.

(** The values of [TLGeoShape['props']['geo']] the code produces. *)
Inductive GeoType : Type := diamond | ellipse | trapezoid | rectangle.

(** [getGeoTypeForNode(nodeType: string)]: a [switch] over string
    literals with a [default] branch. *)
Definition getGeoTypeForNode (nodeType : jsstring) : GeoType :=
  if str_eqb nodeType (lit "decision") then diamond
  else if str_eqb nodeType (lit "start") then ellipse
  else if str_eqb nodeType (lit "end") then ellipse
  else if str_eqb nodeType (lit "data") then trapezoid
  else rectangle.

(** Shape ids are opaque and fresh per call of [createShapeId] (tldraw
    draws them at random); they are numbered here in the order drawn. *)
Definition ShapeId := nat.

Inductive Fill : Type := solid.
Inductive Color : Type := green | red | blue.

Record GeoProps : Type := {
  w : float;
  h : float;
  geo : GeoType;
  text : jsstring;
  fill : Fill;
  color : Color
}.

Record Point : Type := { pt_x : float; pt_y : float }.

(** The argument of one [editor.createShape] call. *)
Inductive Shape : Type :=
| GeoShape (id : ShapeId) (sx sy : float) (props : GeoProps)
| ArrowShape (id : ShapeId) (sx sy : float) (start end_ : Point) (arrow_text : jsstring).

(** What the function acts on: the supply of shape ids and the editor,
    which is the batch of [createShape] calls received, oldest first. *)
Record World : Type := {
  next_id : nat;
  created : list Shape
}.

Definition createShapeId (wd : World) : ShapeId * World :=
  (next_id wd, {| next_id := S (next_id wd); created := created wd |}).

Definition createShape (wd : World) (s : Shape) : World :=
  {| next_id := next_id wd; created := created wd ++ [s] |}.

(** [node.type === 'start' ? 'green' : node.type === 'end' ? 'red' : 'blue']. *)
Definition color_of (nodeType : jsstring) : Color :=
  if str_eqb nodeType (lit "start") then green
  else if str_eqb nodeType (lit "end") then red
  else blue.

(** Body of [layout.nodes.forEach] (source lines 80-100); the state is the
    local [nodeShapeMap] and the world. *)
Definition node_step (st : gmap (list N) ShapeId * World) (node : PositionedNode)
  : gmap (list N) ShapeId * World :=
  let '(nodeShapeMap, wd) := st in
  let '(shapeId, wd) := createShapeId wd in
  let nodeShapeMap := <[node_id (base node) := shapeId]> nodeShapeMap in
  let geoType := getGeoTypeForNode (node_type (base node)) in
  let wd :=
    createShape wd
      (GeoShape shapeId (x node) (y node)
         {| w := width node;
            h := height node;
            geo := geoType;
            text := node_label (base node);
            fill := solid;
            color := color_of (node_type (base node)) |}) in
  (nodeShapeMap, wd).

(** [layout.nodes.find(n => n.id === id)]: the first node with that id. *)
Definition find_node (layout : LayoutResult) (id : jsstring) : option PositionedNode :=
  find (fun n => str_eqb (node_id (base n)) id) (layout_nodes layout).

(** [edge.label || '']. *)
Definition label_or_empty (label : option jsstring) : jsstring :=
  match label with
  | Some (c :: l) => c :: l
  | Some [] | None => []
  end.

(** Body of [layout.edges.forEach] (source lines 103-134).  A shape id is
    a non-empty string, so [sourceShapeId && targetShapeId] holds exactly
    when both lookups succeed. *)
Definition edge_step (layout : LayoutResult) (nodeShapeMap : gmap (list N) ShapeId)
    (wd : World) (edge : GraphEdge) : World :=
  match nodeShapeMap !! source edge, nodeShapeMap !! target edge with
  | Some sourceShapeId, Some targetShapeId =>
      match find_node layout (source edge), find_node layout (target edge) with
      | Some sourceNode, Some targetNode =>
          let '(arrowId, wd) := createShapeId wd in
          let startX := (x sourceNode + width sourceNode / 2)%float in
          let startY := (y sourceNode + height sourceNode)%float in
          let endX := (x targetNode + width targetNode / 2)%float in
          let endY := y targetNode in
          createShape wd
            (ArrowShape arrowId 0 0
               {| pt_x := startX; pt_y := startY |}
               {| pt_x := endX; pt_y := endY |}
               (label_or_empty (edge_label edge)))
      | _, _ => wd
      end
  | _, _ => wd
  end.

(** [generateTldrawShapes(layout, editor)]. *)
Definition generateTldrawShapes (layout : LayoutResult) (wd : World) : World :=
  let '(nodeShapeMap, wd) := fold_left node_step (layout_nodes layout) (∅, wd) in
  fold_left (edge_step layout nodeShapeMap) (layout_edges layout) wd.

End TldrawHelpers.

(* ===================================================================== *)
(** ** lib/openai-config.ts and hooks/useChatAPI.ts *)
(* ===================================================================== *)

Module ChatAPI.

Import DiagramParser.

(** [validateOpenAIConfig()]; [apiKey] is [OPENAI_CONFIG.apiKey], the
    environment variable or the empty string. *)
Definition validateOpenAIConfig (apiKey : jsstring) : bool :=
  match apiKey with
  | [] => false
  | _ :: _ => true
  end.

Inductive Role : Type := user | assistant | system.

(** [ChatMessage].  The content of an assistant message is whatever the
    response held, a string by its type annotation only; [timestamp] is
    the reading of the clock. *)
Record ChatMessage : Type := {
  msg_id : jsstring;
  role : Role;
  content : Value;
  timestamp : Z;
  diagramData : option Value
}.

(** The three pieces of state of the hook. *)
Record ChatState : Type := {
  messages : list ChatMessage;
  isLoading : bool;
  error : option jsstring
}.

Definition setMessages (update : list ChatMessage -> list ChatMessage)
    (st : ChatState) : ChatState :=
  {| messages := update (messages st); isLoading := isLoading st; error := error st |}.

Definition setIsLoading (b : bool) (st : ChatState) : ChatState :=
  {| messages := messages st; isLoading := b; error := error st |}.

Definition setError (e : option jsstring) (st : ChatState) : ChatState :=
  {| messages := messages st; isLoading := isLoading st; error := e |}.

(** What a [catch] clause can receive: an [Error] instance with its
    message, or something else. *)
Inductive Thrown : Type :=
| ErrorObject (message : jsstring)
| OtherThrown.

Inductive Result (A : Type) : Type :=
| Done (a : A)
| Raised (t : Thrown).
Arguments Done {A} a.
Arguments Raised {A} t.

Definition and_then {A B} (r : Result A) (k : A -> Result B) : Result B :=
  match r with
  | Done a => k a
  | Raised t => Raised t
  end.

Notation "'await' x <- r ; k" := (and_then r (fun x => k))
  (at level 10, x name, r at level 100, k at level 200).

(** What [fetch] and [response.json()] do in one call of [sendMessage]:
    the request is rejected, or a response comes with its [ok] flag and a
    body that parses to a value or fails to. *)
Inductive FetchOutcome : Type :=
| Rejected (err : Thrown)
| Resolved (ok : bool) (json : Result Value).

(** Everything one call reads from outside: the key, the two readings of
    [Date.now()] and of [new Date()], and the network. *)
Record Env : Type := {
  apiKey : jsstring;
  now_user : Z;
  date_user : Z;
  now_reply : Z;
  date_reply : Z;
  fetch_outcome : FetchOutcome
}.

(** An entry of [apiMessages]. *)
Record ApiMessage : Type := {
  api_role : Role;
  api_content : Value
}.

(** [v || d] *)
Definition or_else (v d : Value) : Value :=
  if truthy v then v else d.

(** [v?.k] *)
Definition opt_member (v : Value) (k : jsstring) : Value :=
  match get v k with
  | Normal x => x
  | Throw _ => VUndefined
  end.

Section Hook.

(** The engine's and the module's own constants are taken as given: the
    parser, the system prompt, the decimal form of a number, the string
    form of a value that is not a string, and the message of the TypeError
    that reading property [k] of [null] or [undefined] raises. *)
Variable JSON_parse : jsstring -> Completion Value.
Variable DIAGRAM_GENERATION_SYSTEM_PROMPT : jsstring.
Variable number_to_string : Z -> jsstring.
Variable other_to_string : Value -> jsstring.
Variable type_error_message : Value -> jsstring -> jsstring.

(** ToString. *)
Definition to_string (v : Value) : jsstring :=
  match v with
  | VStr s => s
  | _ => other_to_string v
  end.

(** [v.k] *)
Definition member (v : Value) (k : jsstring) : Result Value :=
  match get v k with
  | Normal x => Done x
  | Throw _ => Raised (ErrorObject (type_error_message v k))
  end.

(** [v[0]] *)
Definition index0 (v : Value) : Result Value :=
  match v with
  | VUndefined | VNull => Raised (ErrorObject (type_error_message v (lit "0")))
  | VArr _ (x :: _) => Done x
  | VStr (c :: _) => Done (VStr [c])
  | VObj _ props => Done (own_property props (lit "0"))
  | _ => Done VUndefined
  end.

(** [extractDiagramFromResponse(assistantContent)] on whatever the content
    is.  On a value that is not a string the call of [indexOf] or of
    [substring] raises a TypeError inside the function's own [try], and
    the result is [null].  Were the function to throw, the error would
    reach the [catch] of [sendMessage]. *)
Definition extract_content (assistantContent : Value) : Result (option Value) :=
  match assistantContent with
  | VStr s =>
      match extractDiagramFromResponse JSON_parse s with
      | Normal r => Done r
      | Throw _ => Raised (ErrorObject (type_error_message assistantContent []))
      end
  | _ => Done None
  end.

(** The body of the [try] block after the request has gone out (source
    lines 76-106): the assistant message to add, or what is thrown. *)
Definition reply (env : Env) : Result ChatMessage :=
  match fetch_outcome env with
  | Rejected err => Raised err
  | Resolved ok json =>
      if negb ok then
        await errorData <- json;
        await err <- member errorData (lit "error");
        Raised (ErrorObject
                  (to_string
                     (or_else (opt_member err (lit "message"))
                              (VStr (lit "Failed to get response from OpenAI")))))
      else
        await data <- json;
        await choices <- member data (lit "choices");
        await first <- index0 choices;
        let assistantContent :=
          or_else (opt_member (opt_member first (lit "message")) (lit "content"))
                  (VStr []) in
        await diagramData <- extract_content assistantContent;
        Done {| msg_id := lit "assistant-" ++ number_to_string (now_reply env);
                role := assistant;
                content := assistantContent;
                timestamp := date_reply env;
                diagramData := diagramData |}
  end.

(** [sendMessage(userMessage)].  [history] is the [messages] that the
    callback closed over, [st] the state that the updates act on; the
    result is the state after the call and the [apiMessages] of the
    request, if one was made. *)
Definition sendMessage (history : list ChatMessage) (env : Env)
    (userMessage : jsstring) (st : ChatState)
  : ChatState * option (list ApiMessage) :=
  if negb (validateOpenAIConfig (apiKey env)) then
    (setError (Some (lit "OpenAI API key not configured")) st, None)
  else
  match trim userMessage with
  | [] => (st, None)
  | _ :: _ =>
      let st := setIsLoading true st in
      let st := setError None st in
      let userMsg :=
        {| msg_id := lit "user-" ++ number_to_string (now_user env);
           role := user;
           content := VStr userMessage;
           timestamp := date_user env;
           diagramData := None |} in
      let st := setMessages (fun prev => prev ++ [userMsg]) st in
      let apiMessages :=
        [{| api_role := system; api_content := VStr DIAGRAM_GENERATION_SYSTEM_PROMPT |}]
        ++ map (fun msg => {| api_role := role msg; api_content := content msg |}) history
        ++ [{| api_role := user; api_content := VStr userMessage |}] in
      let st :=
        match reply env with
        | Done assistantMsg =>
            setMessages (fun prev => prev ++ [assistantMsg]) st
        | Raised err =>
            let errorMessage :=
              match err with
              | ErrorObject message => message
              | OtherThrown => lit "Unknown error occurred"
              end in
            let st := setError (Some errorMessage) st in
            let errorMsg :=
              {| msg_id := lit "error-" ++ number_to_string (now_reply env);
                 role := assistant;
                 content := VStr (lit "Sorry, I encountered an error: " ++ errorMessage);
                 timestamp := date_reply env;
                 diagramData := None |} in
            setMessages (fun prev => prev ++ [errorMsg]) st
        end in
      let st := setIsLoading false st in
      (st, Some apiMessages)
  end.

(** [clearMessages()] *)
Definition clearMessages (st : ChatState) : ChatState :=
  setError None (setMessages (fun _ => []) st).

End Hook.

End ChatAPI.

(* ===================================================================== *)
(** ** Vocabulary of the statements *)
(* ===================================================================== *)

Import DiagramParser LayoutEngine TldrawHelpers.

(** *** Validation *)

(** [v.k] read without the TypeError: [undefined] when [v] has no such
    property, whatever [v] is. *)
Definition field (v : Value) (k : jsstring) : Value :=
  match v with
  | VObj _ props => own_property props k
  | _ => VUndefined
  end.

(** [v] has an own property named [k]. *)
Definition has_key (v : Value) (k : jsstring) : bool :=
  match v with
  | VObj _ props => existsb (fun p => str_eqb (fst p) k) props
  | _ => false
  end.

Definition defined (v : Value) : bool :=
  match v with
  | VUndefined | VNull => false
  | _ => true
  end.

Definition is_object (v : Value) : bool :=
  match v with
  | VObj _ _ | VArr _ _ => true
  | _ => false
  end.

Definition elems (v : Value) : list Value :=
  match v with
  | VArr _ xs => xs
  | _ => []
  end.

(** [v] is (strictly equal to) the id of one of [nodes]. *)
Definition is_node_id (nodes : list Value) (v : Value) : bool :=
  existsb (fun n => strict_eq (field n k_id) v) nodes.

(** The grounds for rejection as the validator applies them: a field
    counts as missing when its value is falsy. *)
Definition node_rejected (n : Value) : bool :=
  negb (truthy (field n k_id))
  || negb (truthy (field n k_label))
  || negb (truthy (field n k_type))
  || negb (includes validTypes (field n k_type)).

Definition edge_rejected (nodes : list Value) (e : Value) : bool :=
  negb (truthy (field e k_id))
  || negb (truthy (field e k_source))
  || negb (truthy (field e k_target))
  || negb (is_node_id nodes (field e k_source))
  || negb (is_node_id nodes (field e k_target)).

Definition rejects (d : Value) : bool :=
  negb (is_object d)
  || negb (isArray (field d k_nodes))
  || negb (isArray (field d k_edges))
  || existsb node_rejected (elems (field d k_nodes))
  || existsb (edge_rejected (elems (field d k_nodes))) (elems (field d k_edges)).

(** The grounds for rejection in the words of the specification: a field
    is missing when the object has no property of that name. *)
Definition node_rejected_by_presence (n : Value) : bool :=
  negb (has_key n k_id)
  || negb (has_key n k_label)
  || negb (has_key n k_type)
  || negb (includes validTypes (field n k_type)).

Definition edge_rejected_by_presence (nodes : list Value) (e : Value) : bool :=
  negb (has_key e k_id)
  || negb (has_key e k_source)
  || negb (has_key e k_target)
  || negb (is_node_id nodes (field e k_source))
  || negb (is_node_id nodes (field e k_target)).

Definition rejects_by_presence (d : Value) : bool :=
  negb (is_object d)
  || negb (isArray (field d k_nodes))
  || negb (isArray (field d k_edges))
  || existsb node_rejected_by_presence (elems (field d k_nodes))
  || existsb (edge_rejected_by_presence (elems (field d k_nodes)))
             (elems (field d k_edges)).

(** No element of [d.nodes] or of [d.edges] is [null] or [undefined]. *)
Definition elements_defined (d : Value) : bool :=
  forallb defined (elems (field d k_nodes))
  && forallb defined (elems (field d k_edges)).

(** Some node of [d.nodes] has a falsy [id], [label] or [type], or some
    edge of [d.edges] has a falsy [id], [source] or [target]. *)
Definition node_has_falsy_field (n : Value) : bool :=
  negb (truthy (field n k_id))
  || negb (truthy (field n k_label))
  || negb (truthy (field n k_type)).

Definition edge_has_falsy_field (e : Value) : bool :=
  negb (truthy (field e k_id))
  || negb (truthy (field e k_source))
  || negb (truthy (field e k_target)).

(** The loops of the validator in closed form: the first element that is
    [null] or [undefined] throws, the first that fails [ok] returns
    [false]. *)
Fixpoint scan (ok : Value -> bool) (xs : list Value) : Completion returned :=
  match xs with
  | [] => Normal None
  | v :: rest =>
      if negb (defined v) then Throw TypeError
      else if ok v then scan ok rest
      else Normal (Some false)
  end.

(** *** Example inputs *)

Definition str (s : string) : Value := VStr (lit s).

Definition object (l : loc) (props : list (string * Value)) : Value :=
  VObj l (map (fun p => (lit (fst p), snd p)) props).

(** [{nodes: [{id: '', label: 'A', type: 'start'}], edges: []}] *)
Definition empty_id_diagram : Value :=
  object 1 [("nodes", VArr 2
                        [object 3 [("id", str ""); ("label", str "A");
                                   ("type", str "start")]]);
            ("edges", VArr 4 [])]%string.

(** [{nodes: [{id: '1', label: 'Start', type: 'start'},
              {id: '2', label: 'End', type: 'end'}],
      edges: [{id: 'e1', source: '1', target: '2'}]}] *)
Definition two_node_diagram : Value :=
  object 1 [("nodes", VArr 2
                        [object 3 [("id", str "1"); ("label", str "Start");
                                   ("type", str "start")];
                         object 4 [("id", str "2"); ("label", str "End");
                                   ("type", str "end")]]);
            ("edges", VArr 5
                        [object 6 [("id", str "e1"); ("source", str "1");
                                   ("target", str "2")]])]%string.

Definition plain_response : list N := lit "  No diagram this time.  ".

(** A JSON text, written with ['] where the text has the double quote. *)
Definition json_lit (s : string) : list N :=
  map (fun c => if N.eqb c 39 then 34%N else c) (lit s).

Definition two_node_json : list N :=
  json_lit "{'nodes':[{'id':'1','label':'Start','type':'start'},{'id':'2','label':'End','type':'end'}],'edges':[{'id':'e1','source':'1','target':'2'}]}".

(** A stand-in for [JSON.parse] in examples: it parses [two_node_json]
    and throws a SyntaxError on every other text. *)
Definition parse_two_node (text : list N) : Completion Value :=
  if str_eqb text two_node_json then Normal two_node_diagram
  else Throw SyntaxError.

Definition block_response : list N :=
  lit "Here it is: " ++ startMarker ++ two_node_json ++ endMarker ++ lit " Done. ".

(** *** Text *)

(** [p] occurs in [s]. *)
Definition occurs (p s : list N) : Prop := exists a b, s = a ++ p ++ b.

(** What [extractDiagramFromResponse] hands to [JSON.parse]: the text
    between the first start marker and the first end marker, trimmed. *)
Definition delimited_text (response : list N) : list N :=
  trim (substring response
                  (indexOf response startMarker + Z.of_nat (length startMarker))
                  (indexOf response endMarker)).

(** [s] holds a delimited block: a start marker with an end marker
    somewhere after it. *)
Definition has_block (s : list N) : Prop :=
  exists pre body post, s = pre ++ startMarker ++ body ++ endMarker ++ post.

(** [Stripped s out]: [out] is [s] with each delimited block, markers
    included, replaced by the placeholder.  Blocks are taken left to
    right; a block runs from the first start marker to the first end
    marker after it. *)
Inductive Stripped : list N -> list N -> Prop :=
| Stripped_rest s :
    ~ has_block s -> Stripped s s
| Stripped_block pre body post out :
    ~ occurs startMarker pre ->
    ~ occurs endMarker body ->
    Stripped post out ->
    Stripped (pre ++ startMarker ++ body ++ endMarker ++ post)
             (pre ++ placeholder ++ out).

(** *** Shapes *)

(** Midpoints of the four faces of a node's box. *)
Definition bottom_center (n : PositionedNode) : Point :=
  {| pt_x := (x n + width n / 2)%float; pt_y := (y n + height n)%float |}.
Definition top_center (n : PositionedNode) : Point :=
  {| pt_x := (x n + width n / 2)%float; pt_y := y n |}.
Definition left_center (n : PositionedNode) : Point :=
  {| pt_x := x n; pt_y := (y n + height n / 2)%float |}.
Definition right_center (n : PositionedNode) : Point :=
  {| pt_x := (x n + width n)%float; pt_y := (y n + height n / 2)%float |}.

(** In the words of the specification: the face of a box that looks down
    the primary axis of the layout, and the one that looks up it. *)
Definition downstream_face_mid (dir : Rankdir) : PositionedNode -> Point :=
  match dir with
  | TB => bottom_center
  | BT => top_center
  | LR => right_center
  | RL => left_center
  end.

Definition upstream_face_mid (dir : Rankdir) : PositionedNode -> Point :=
  match dir with
  | TB => top_center
  | BT => bottom_center
  | LR => left_center
  | RL => right_center
  end.

(** Two points are the same when their coordinates are equal numbers. *)
Definition Point_eq (p q : Point) : Prop :=
  (pt_x p =? pt_x q)%float = true /\ (pt_y p =? pt_y q)%float = true.

(** The shape instruction of a positioned node. *)
Definition node_shape (id : ShapeId) (node : PositionedNode) : Shape :=
  GeoShape id (x node) (y node)
    {| w := width node;
       h := height node;
       geo := getGeoTypeForNode (node_type (base node));
       text := node_label (base node);
       fill := solid;
       color := color_of (node_type (base node)) |}.

(** The [nodeShapeMap] once the nodes have been gone through. *)
Definition id_map (layout : LayoutResult) (wd : World) : gmap (list N) ShapeId :=
  fst (fold_left node_step (layout_nodes layout) (∅, wd)).

(** Both ends of the edge resolve through the map. *)
Definition resolves (m : gmap (list N) ShapeId) (e : GraphEdge) : bool :=
  match m !! source e, m !! target e with
  | Some _, Some _ => true
  | _, _ => false
  end.

(** The connector of an edge, without its shape id: start, end, text. *)
Definition connector (layout : LayoutResult) (m : gmap (list N) ShapeId)
    (e : GraphEdge) : option (Point * Point * list N) :=
  if resolves m e then
    match find_node layout (source e), find_node layout (target e) with
    | Some s, Some t =>
        Some (bottom_center s, top_center t, label_or_empty (edge_label e))
    | _, _ => None
    end
  else None.

Definition arrow_shape (id : ShapeId) (c : Point * Point * list N) : Shape :=
  ArrowShape id 0 0 (fst (fst c)) (snd (fst c)) (snd c).

(** The anchors of the arrows in a batch. *)
Definition arrow_anchors (s : Shape) : option (Point * Point) :=
  match s with
  | ArrowShape _ _ _ st en _ => Some (st, en)
  | GeoShape _ _ _ _ => None
  end.

Definition is_geo (s : Shape) : bool :=
  match s with
  | GeoShape _ _ _ _ => true
  | ArrowShape _ _ _ _ _ _ => false
  end.

Definition world0 : World := {| next_id := 0; created := [] |}.

Definition positioned (id label type : string) (px py : float) : PositionedNode :=
  {| base := {| node_id := lit id; node_label := lit label;
                node_type := lit type; node_metadata := None |};
     x := px; y := py; width := 180; height := 80 |}.

Definition edge (id s t : string) : GraphEdge :=
  {| edge_id := lit id; source := lit s; target := lit t; edge_label := None |}.

(** Two nodes side by side, as a left-to-right layout places them. *)
Definition node_a : PositionedNode := positioned "a" "A" "start" 0 0.
Definition node_b : PositionedNode := positioned "b" "B" "end" 280 0.

Definition lr_layout : LayoutResult :=
  {| layout_nodes := [node_a; node_b]; layout_edges := [edge "e1" "a" "b"] |}.

(** The same with a second edge whose target is no node of the layout. *)
Definition dangling_layout : LayoutResult :=
  {| layout_nodes := [node_a; node_b];
     layout_edges := [edge "e0" "a" "zz"; edge "e1" "a" "b"] |}.

(** *** Layout *)

(** The values of the five options after the defaults. *)
Definition rankdir_of (options : option LayoutOptions) : Rankdir :=
  default TB (rankdir (default no_options options)).
Definition nodesep_of (options : option LayoutOptions) : float :=
  default 50%float (nodesep (default no_options options)).
Definition ranksep_of (options : option LayoutOptions) : float :=
  default 100%float (ranksep (default no_options options)).
Definition nodeWidth_of (options : option LayoutOptions) : float :=
  default NODE_WIDTH (nodeWidth (default no_options options)).
Definition nodeHeight_of (options : option LayoutOptions) : float :=
  default NODE_HEIGHT (nodeHeight (default no_options options)).

(** The graph that [getAutoLayout] hands to [dagre.layout]. *)
Definition dagre_input (graphModel : GraphModel) (options : option LayoutOptions)
  : DagreGraph :=
  fold_left (fun graph edge => setEdge graph (source edge) (target edge))
    (edges graphModel)
    (fold_left
       (fun graph node =>
          setNode graph (node_id node)
            {| nl_label := node_label node;
               nl_width := nodeWidth_of options;
               nl_height := nodeHeight_of options |})
       (nodes graphModel)
       (setGraph new_Graph
          {| gl_rankdir := rankdir_of options;
             gl_nodesep := nodesep_of options;
             gl_ranksep := ranksep_of options |})).

(** The positioned node made from [node] when the engine puts its centre
    at [centre]. *)
Definition place (options : option LayoutOptions) (centre : float * float) (node : GraphNode)
  : PositionedNode :=
  {| base := node;
     x := (fst centre - nodeWidth_of options / 2)%float;
     y := (snd centre - nodeHeight_of options / 2)%float;
     width := nodeWidth_of options;
     height := nodeHeight_of options |}.

(** Two engines for examples: one puts every node at (90, 40), the other
    does so for the nodes of the graph and puts anything else at the
    origin. *)
Definition engine_fixed (g : DagreGraph) (v : list N) : float * float := (90%float, 40%float).
Definition engine_nodes (g : DagreGraph) (v : list N) : float * float :=
  if hasNode g v then (90%float, 40%float) else (0%float, 0%float).


(** [{nodes: [{id: '1', label: 'A', type: 'start'}], edges: []}] *)
Definition singleton_model : GraphModel :=
  {| nodes := [{| node_id := lit "1"; node_label := lit "A";
                  node_type := lit "start"; node_metadata := None |}];
     edges := [] |}.

(** *** Further vocabulary of the validator *)

(** The element at which the validator stops: the first node with a
    ground for rejection, or, when every node passes, the first such
    edge.  An element that is [null] or [undefined] has all its fields
    falsy, so it counts. *)
Definition first_offender (ns es : list Value) : option Value :=
  match find node_rejected ns with
  | Some v => Some v
  | None => find (edge_rejected ns) es
  end.

(** The inputs on which [validateDiagram] throws: both arrays are there
    and the element it stops at is [null] or [undefined]. *)
Definition throws (d : Value) : bool :=
  is_object d
  && isArray (field d k_nodes)
  && isArray (field d k_edges)
  && match first_offender (elems (field d k_nodes)) (elems (field d k_edges)) with
     | Some v => negb (defined v)
     | None => false
     end.

(** [{nodes: [null, {id: '', label: 'A', type: 'start'}], edges: []}] *)
Definition null_first_diagram : Value :=
  object 1 [("nodes", VArr 2
                        [VNull;
                         object 3 [("id", str ""); ("label", str "A");
                                   ("type", str "start")]]);
            ("edges", VArr 4 [])]%string.

(** [two_node_diagram] with its first node repeated, a self-loop and no
    other edge. *)
Definition repeated_node_diagram : Value :=
  object 1 [("nodes", VArr 2
                        [object 3 [("id", str "1"); ("label", str "Start");
                                   ("type", str "start")];
                         object 4 [("id", str "2"); ("label", str "End");
                                   ("type", str "end")];
                         object 3 [("id", str "1"); ("label", str "Start");
                                   ("type", str "start")]]);
            ("edges", VArr 5
                        [object 7 [("id", str "e2"); ("source", str "2");
                                   ("target", str "2")]])]%string.

(** *** lib/mock-data.ts *)

Definition graph_node (id label type : string) : GraphNode :=
  {| node_id := lit id; node_label := lit label; node_type := lit type;
     node_metadata := None |}.

Definition labelled_edge (id s t label : string) : GraphEdge :=
  {| edge_id := lit id; source := lit s; target := lit t;
     edge_label := Some (lit label) |}.

Definition mockFlowchart : GraphModel :=
  {| nodes := [graph_node "1" "Start" "start";
               graph_node "2" "Process Data" "process";
               graph_node "3" "Is Valid?" "decision";
               graph_node "4" "Save" "process";
               graph_node "5" "Error" "end";
               graph_node "6" "Success" "end"];
     edges := [edge "e1" "1" "2";
               edge "e2" "2" "3";
               labelled_edge "e3" "3" "4" "Yes";
               labelled_edge "e4" "3" "5" "No";
               edge "e5" "4" "6"] |}.

(** A model in which two nodes bear the same id. *)
Definition twin_model : GraphModel :=
  {| nodes := [graph_node "1" "A" "start"; graph_node "1" "B" "end"];
     edges := [] |}.

(** The ids of the nodes of a model. *)
Definition node_ids (graphModel : GraphModel) : list (list N) :=
  map node_id (nodes graphModel).

(** Every edge of the model starts and ends at the id of one of its nodes. *)
Definition edges_closed (graphModel : GraphModel) : Prop :=
  forall e, In e (edges graphModel) ->
    In (source e) (node_ids graphModel) /\ In (target e) (node_ids graphModel).

(** *** Example inputs of the chat hook *)

(** Stand-ins for the engine's conversions in examples. *)
Definition show_number (z : Z) : list N := lit "0".
Definition show_other (v : Value) : list N := lit "[object Object]".
Definition show_type_error (v : Value) (k : list N) : list N :=
  lit "Cannot read properties of " ++ k.

(** [{choices: [{message: {content: <block_response>}}]}] *)
Definition completion_data : Value :=
  object 10 [("choices",
              VArr 11 [object 12 [("message",
                                   object 13 [("content", VStr block_response)])]])
            ]%string.

Definition env_ok : ChatAPI.Env :=
  {| ChatAPI.apiKey := lit "sk-test";
     ChatAPI.now_user := 1; ChatAPI.date_user := 1;
     ChatAPI.now_reply := 2; ChatAPI.date_reply := 2;
     ChatAPI.fetch_outcome := ChatAPI.Resolved true (ChatAPI.Done completion_data) |}.

(** The same with a response that is not [ok] and whose body is [null]. *)
Definition env_failed : ChatAPI.Env :=
  {| ChatAPI.apiKey := lit "sk-test";
     ChatAPI.now_user := 1; ChatAPI.date_user := 1;
     ChatAPI.now_reply := 2; ChatAPI.date_reply := 2;
     ChatAPI.fetch_outcome := ChatAPI.Resolved false (ChatAPI.Done VNull) |}.

Definition idle : ChatAPI.ChatState :=
  {| ChatAPI.messages := []; ChatAPI.isLoading := false; ChatAPI.error := None |}.

(* ===================================================================== *)
(** ** Proof steps *)
(* ===================================================================== *)

(** Reduce the binds and the boolean connectives, nothing else. *)
Ltac step := cbn [bind negb orb andb].

(** A code unit is not among those of a literal. *)
Ltac not_in_literal :=
  let H := fresh in
  intros H; apply list_elem_of_In in H; vm_compute in H;
  repeat (destruct H as [H|H]; [discriminate H|]); exact H.

(* ===================================================================== *)
(** ** The validator *)
(* ===================================================================== *)

Lemma get_defined v k : defined v = true -> get v k = Normal (field v k).
Proof. by destruct v. Qed.

Lemma get_undefined v k : defined v = false -> get v k = Throw TypeError.
Proof. by destruct v. Qed.

Lemma node_body_scan n :
  node_body n =
  if negb (defined n) then Throw TypeError
  else if negb (node_rejected n) then Normal None else Normal (Some false).
Proof.
  destruct (defined n) eqn:Hd; step.
  - unfold node_body, node_fields_missing, node_rejected.
    rewrite !(get_defined _ _ Hd); step.
    destruct (truthy (field n k_id)); step; [|done].
    destruct (truthy (field n k_label)); step; [|done].
    destruct (truthy (field n k_type)); step; [|done].
    by destruct (includes validTypes (field n k_type)).
  - unfold node_body, node_fields_missing.
    by rewrite (get_undefined _ _ Hd).
Qed.

Lemma nodes_loop_scan ns :
  nodes_loop ns = scan (fun n => negb (node_rejected n)) ns.
Proof.
  induction ns as [|n ns IH]; [done|].
  cbn [nodes_loop scan]. rewrite node_body_scan.
  destruct (defined n); step; [|done].
  by destruct (node_rejected n); step.
Qed.

Lemma node_exists_defined ns e k :
  forallb defined ns = true -> defined e = true ->
  node_exists ns e k = Normal (is_node_id ns (field e k)).
Proof.
  intros Hns He. unfold node_exists, is_node_id.
  rewrite (get_defined _ _ He).
  induction ns as [|n ns IH]; [done|].
  cbn [forallb] in Hns. apply andb_prop in Hns as [Hn Hns].
  cbn [array_some existsb].
  rewrite (get_defined _ _ Hn). step.
  destruct (strict_eq (field n k_id) (field e k)); step; [done|].
  by apply IH.
Qed.

Lemma edge_body_scan ns e :
  forallb defined ns = true ->
  edge_body ns e =
  if negb (defined e) then Throw TypeError
  else if negb (edge_rejected ns e) then Normal None else Normal (Some false).
Proof.
  intros Hns. destruct (defined e) eqn:Hd; step.
  - unfold edge_body, edge_fields_missing, edge_rejected.
    rewrite !(get_defined _ _ Hd); step.
    destruct (truthy (field e k_id)); step; [|done].
    destruct (truthy (field e k_source)); step; [|done].
    destruct (truthy (field e k_target)); step; [|done].
    rewrite !(node_exists_defined _ _ _ Hns Hd). step.
    destruct (is_node_id ns (field e k_source)); step; [|done].
    by destruct (is_node_id ns (field e k_target)).
  - unfold edge_body, edge_fields_missing.
    by rewrite (get_undefined _ _ Hd).
Qed.

Lemma edges_loop_scan ns es :
  forallb defined ns = true ->
  edges_loop ns es = scan (fun e => negb (edge_rejected ns e)) es.
Proof.
  intros Hns. induction es as [|e es IH]; [done|].
  cbn [edges_loop scan]. rewrite (edge_body_scan _ _ Hns).
  destruct (defined e); step; [|done].
  by destruct (edge_rejected ns e); step.
Qed.

Lemma scan_defined ok xs :
  forallb defined xs = true ->
  scan ok xs = Normal (if forallb ok xs then None else Some false).
Proof.
  induction xs as [|v xs IH]; [done|].
  cbn [forallb scan]. intros [Hv Hxs]%andb_prop. rewrite Hv. step.
  destruct (ok v); step; [by apply IH|done].
Qed.

Lemma scan_None ok xs :
  scan ok xs = Normal None ->
  forallb defined xs = true /\ forallb ok xs = true.
Proof.
  induction xs as [|v xs IH]; [done|].
  cbn [forallb scan].
  destruct (defined v); step; [|done].
  destruct (ok v); step; [|done].
  exact IH.
Qed.

Lemma scan_not_true ok xs : scan ok xs <> Normal (Some true).
Proof.
  induction xs as [|v xs IH]; [done|].
  cbn [scan]. destruct (defined v); step; [|done].
  by destruct (ok v).
Qed.

Lemma forallb_negb_existsb {A} (f : A -> bool) xs :
  forallb (fun a => negb (f a)) xs = negb (existsb f xs).
Proof.
  induction xs as [|a xs IH]; [done|].
  cbn [forallb existsb]. rewrite IH. by destruct (f a), (existsb f xs).
Qed.

Lemma not_object_test d :
  negb (truthy d) || negb (str_eqb (typeof d) (lit "object")) = negb (is_object d).
Proof.
  destruct d as [| | b | f | s | l xs | l ps]; try reflexivity.
  - by destruct b.
  - cbn [typeof is_object negb]. apply orb_true_r.
  - by destruct s.
Qed.

Lemma rejected_of_undefined n : defined n = false -> node_rejected n = true.
Proof. by destruct n. Qed.

Lemma edge_rejected_of_undefined ns e : defined e = false -> edge_rejected ns e = true.
Proof. by destruct e. Qed.

Lemma not_rejected_defined (rej : Value -> bool) xs :
  (forall v, defined v = false -> rej v = true) ->
  existsb rej xs = false -> forallb defined xs = true.
Proof.
  intros Hrej. induction xs as [|v xs IH]; [done|].
  cbn [existsb forallb]. intros [Hv Hxs]%orb_false_elim.
  rewrite (IH Hxs), andb_true_r.
  destruct (defined v) eqn:Hd; [done|]. by rewrite (Hrej _ Hd) in Hv.
Qed.

(** The validator in closed form. *)
Lemma validateDiagram_scan d :
  validateDiagram d =
  if negb (is_object d)
     || negb (isArray (field d k_nodes))
     || negb (isArray (field d k_edges))
  then Normal false
  else
    do r <- scan (fun n => negb (node_rejected n)) (elems (field d k_nodes));
    match r with
    | Some b => Normal b
    | None =>
        do r <- scan (fun e => negb (edge_rejected (elems (field d k_nodes)) e))
                     (elems (field d k_edges));
        match r with
        | Some b => Normal b
        | None => Normal true
        end
    end.
Proof.
  unfold validateDiagram. rewrite not_object_test.
  destruct d as [| | b | f | s | l xs | l ps]; try reflexivity.
  cbn [is_object negb orb get field bind].
  destruct (own_property ps k_nodes) as [| | b | f | s | ln ns | ln nps]; try reflexivity.
  cbn [isArray negb orb].
  destruct (own_property ps k_edges) as [| | b | f | s | le es | le eps]; try reflexivity.
  cbn [isArray negb orb elems]. rewrite nodes_loop_scan.
  destruct (scan _ ns) as [[b|]|err] eqn:Hscan; step; try reflexivity.
  apply scan_None in Hscan as [Hdef _].
  by rewrite (edges_loop_scan _ _ Hdef).
Qed.

Lemma validateDiagram_defined d :
  elements_defined d = true -> validateDiagram d = Normal (negb (rejects d)).
Proof.
  unfold elements_defined, rejects. intros [Hns Hes]%andb_prop.
  rewrite validateDiagram_scan.
  destruct (negb (is_object d) || negb (isArray (field d k_nodes))
            || negb (isArray (field d k_edges))); [done|].
  cbn [orb]. rewrite (scan_defined _ _ Hns), (scan_defined _ _ Hes).
  rewrite !forallb_negb_existsb. step.
  destruct (existsb node_rejected _); step; [done|].
  by destruct (existsb (edge_rejected _) _).
Qed.

Lemma rejects_false_defined d : rejects d = false -> elements_defined d = true.
Proof.
  unfold rejects, elements_defined.
  intros [[_ Hns]%orb_false_elim Hes]%orb_false_elim.
  apply andb_true_intro; split.
  - eapply not_rejected_defined; [apply rejected_of_undefined|done].
  - eapply not_rejected_defined; [apply edge_rejected_of_undefined|done].
Qed.

Lemma validateDiagram_true d :
  validateDiagram d = Normal true <-> rejects d = false.
Proof.
  split.
  - rewrite validateDiagram_scan. unfold rejects.
    destruct (negb (is_object d) || negb (isArray (field d k_nodes))
              || negb (isArray (field d k_edges))); [done|].
    cbn [orb].
    destruct (scan _ (elems (field d k_nodes))) as [[b|]|err] eqn:Hn; step.
    + intros [= ->]. by apply scan_not_true in Hn.
    + apply scan_None in Hn as [_ Hn]. rewrite forallb_negb_existsb in Hn.
      apply negb_true_iff in Hn. rewrite Hn. step.
      destruct (scan _ (elems (field d k_edges))) as [[b|]|err] eqn:He; step.
      * intros [= ->]. by apply scan_not_true in He.
      * apply scan_None in He as [_ He]. rewrite forallb_negb_existsb in He.
        by apply negb_true_iff in He.
      * done.
    + done.
  - intros H. rewrite (validateDiagram_defined _ (rejects_false_defined _ H)).
    by rewrite H.
Qed.

Lemma validateDiagram_throws d e :
  validateDiagram d = Throw e -> e = TypeError /\ elements_defined d = false.
Proof.
  intros H. split.
  - revert H. rewrite validateDiagram_scan.
    destruct (_ || _); [done|].
    assert (Hscan : forall ok xs, scan ok xs = Throw e -> e = TypeError).
    { intros ok xs. induction xs as [|v xs IH]; [done|]. cbn [scan].
      destruct (defined v); step; [|by intros [= <-]].
      by destruct (ok v). }
    destruct (scan _ (elems (field d k_nodes))) as [[b|]|err] eqn:Hn; step.
    + done.
    + destruct (scan _ (elems (field d k_edges))) as [[b|]|err] eqn:He; step;
        [done|done|]. intros [= ->]. eauto.
    + intros [= ->]. eauto.
  - destruct (elements_defined d) eqn:Hd; [|done].
    by rewrite (validateDiagram_defined _ Hd) in H.
Qed.

(** The validator reads [node.id] of every element without testing the
    element itself first, so an element that is [null] makes it throw. *)
Example validateDiagram_null_node :
  validateDiagram (object 1 [("nodes", VArr 2 [VNull]); ("edges", VArr 3 [])]%string)
  = Throw TypeError.
Proof. reflexivity. Qed.

Example validateDiagram_two_nodes : validateDiagram two_node_diagram = Normal true.
Proof. reflexivity. Qed.

(** Ids are compared with [===], whatever their type: a numeric id is
    found by a numeric reference, and the falsy ids [0] and [NaN] are
    refused. *)
Example validateDiagram_numeric_id :
  validateDiagram
    (object 1 [("nodes", VArr 2 [object 3 [("id", VNum 1); ("label", str "A");
                                           ("type", str "start")]]);
               ("edges", VArr 4 [object 5 [("id", str "e"); ("source", VNum 1);
                                           ("target", VNum 1)]])]%string)
  = Normal true.
Proof. reflexivity. Qed.

Example validateDiagram_zero_id :
  validateDiagram
    (object 1 [("nodes", VArr 2 [object 3 [("id", VNum 0); ("label", str "A");
                                           ("type", str "start")]]);
               ("edges", VArr 4 [])]%string)
  = Normal false
  /\ truthy (VNum nan) = false.
Proof. split; reflexivity. Qed.

(** C1, as stated, fails: in
    [{nodes: [{id: '', label: 'A', type: 'start'}], edges: []}] the node
    has all three fields and a type of the enumeration, and no other ground
    of the list applies, yet the validator returns [false]. *)
Lemma validateDiagram_presence_counterexample :
  rejects_by_presence empty_id_diagram = false
  /\ validateDiagram empty_id_diagram = Normal false.
Proof. split; reflexivity. Qed.

(** C1 (amended): [validateDiagram] returns [true] exactly when none of
    the following holds: the top-level value is not an object; [nodes] or
    [edges] is not an array; some node has a falsy [id], [label] or [type]
    (absent, empty string, [null], [0], [false], ...); some node's [type] is
    outside the enumeration; some edge has a falsy [id], [source] or
    [target]; some edge's [source] or [target] is not strictly equal to the
    [id] of a node of the model.  On every input in which no element of
    [nodes] or [edges] is [null] or [undefined] it returns without
    throwing, and returns [false] exactly when one of these holds. *)
Theorem validateDiagram_rejects_exactly (d : Value) :
  (validateDiagram d = Normal true <-> rejects d = false)
  /\ (elements_defined d = true ->
      (exists b, validateDiagram d = Normal b)
      /\ (validateDiagram d = Normal false <-> rejects d = true)).
Proof.
  split; [apply validateDiagram_true|].
  intros Hd. rewrite (validateDiagram_defined _ Hd). split; [eauto|].
  destruct (rejects d); cbn [negb]; split; congruence.
Qed.

Lemma validateDiagram_rejects_exactly_witness :
  elements_defined empty_id_diagram = true
  /\ (exists b, validateDiagram empty_id_diagram = Normal b)
  /\ (validateDiagram empty_id_diagram = Normal false
      <-> rejects empty_id_diagram = true).
Proof.
  split; [reflexivity|].
  apply (proj2 (validateDiagram_rejects_exactly empty_id_diagram)).
  reflexivity.
Defined.

Lemma falsy_field_rejects d :
  existsb node_has_falsy_field (elems (field d k_nodes)) = true
  \/ existsb edge_has_falsy_field (elems (field d k_edges)) = true ->
  rejects d = true.
Proof.
  assert (Hmono : forall (f g : Value -> bool) xs,
             (forall v, f v = true -> g v = true) ->
             existsb f xs = true -> existsb g xs = true).
  { intros f g xs Hfg. rewrite !existsb_exists.
    intros (v & Hin & Hv). exists v. eauto. }
  unfold rejects. intros [H|H].
  - apply (Hmono _ node_rejected) in H.
    + rewrite H. by rewrite !orb_true_r.
    + unfold node_has_falsy_field, node_rejected. by intros v ->.
  - apply (Hmono _ (edge_rejected (elems (field d k_nodes)))) in H.
    + rewrite H. by rewrite !orb_true_r.
    + unfold edge_has_falsy_field, edge_rejected. by intros v ->.
Qed.

(** What does hold of falsy fields on every input: a node of [d.nodes]
    whose [id], [label] or [type] is falsy (the empty string included), or
    an edge of [d.edges] whose [id], [source] or [target] is falsy, keeps
    [d] from being accepted, whether the field is present or not; the
    validator returns [false] unless an element that is [null] or
    [undefined] made it throw before, and it returns [false] when no
    element of the two arrays is [null] or [undefined]. *)
Theorem validateDiagram_truthiness (d : Value) :
  existsb node_has_falsy_field (elems (field d k_nodes)) = true
  \/ existsb edge_has_falsy_field (elems (field d k_edges)) = true ->
  validateDiagram d <> Normal true
  /\ (validateDiagram d = Normal false \/ validateDiagram d = Throw TypeError)
  /\ (elements_defined d = true -> validateDiagram d = Normal false).
Proof.
  intros H%falsy_field_rejects.
  assert (Hnot : validateDiagram d <> Normal true).
  { rewrite validateDiagram_true. by rewrite H. }
  split; [exact Hnot|]. split.
  - destruct (validateDiagram d) as [[|]|e] eqn:Hv; [done|by left|].
    right. by destruct (validateDiagram_throws _ _ Hv) as [-> _].
  - intros Hd. by rewrite (validateDiagram_defined _ Hd), H.
Qed.

Lemma validateDiagram_truthiness_witness :
  (existsb node_has_falsy_field (elems (field empty_id_diagram k_nodes)) = true
   \/ existsb edge_has_falsy_field (elems (field empty_id_diagram k_edges)) = true)
  /\ has_key (object 3 [("id", str ""); ("label", str "A"); ("type", str "start")]%string)
             k_id = true
  /\ validateDiagram empty_id_diagram <> Normal true
  /\ (validateDiagram empty_id_diagram = Normal false
      \/ validateDiagram empty_id_diagram = Throw TypeError)
  /\ (elements_defined empty_id_diagram = true ->
      validateDiagram empty_id_diagram = Normal false).
Proof.
  split; [left; reflexivity|]. split; [reflexivity|].
  apply (validateDiagram_truthiness empty_id_diagram). left; reflexivity.
Defined.

(** C10: the code breaks the claim at
    [{nodes: [null, {id: '', label: 'A', type: 'start'}], edges: []}]: the
    second node has its [id] present and empty, which should have the
    value rejected, but the validator reads [node.id] of the [null] before
    it and throws a TypeError instead of returning [false]; the same value
    without the [null] is rejected. *)
Theorem validateDiagram_null_before_empty_id :
  has_key (object 3 [("id", str ""); ("label", str "A"); ("type", str "start")]%string)
          k_id = true
  /\ existsb (fun n => defined n && node_has_falsy_field n)
             (elems (field null_first_diagram k_nodes)) = true
  /\ validateDiagram null_first_diagram = Throw TypeError
  /\ validateDiagram empty_id_diagram = Normal false.
Proof. repeat split. Qed.

(* ===================================================================== *)
(** ** The node-type mapping *)
(* ===================================================================== *)

(** C4: on the six node types the mapping gives: decision to diamond,
    start and end to ellipse, data to trapezoid, process and default to
    rectangle. *)
Theorem getGeoTypeForNode_mapping :
  getGeoTypeForNode (lit "decision") = diamond
  /\ getGeoTypeForNode (lit "start") = ellipse
  /\ getGeoTypeForNode (lit "end") = ellipse
  /\ getGeoTypeForNode (lit "data") = trapezoid
  /\ getGeoTypeForNode (lit "process") = rectangle
  /\ getGeoTypeForNode (lit "default") = rectangle.
Proof. repeat split; reflexivity. Qed.

(* ===================================================================== *)
(** ** Searching a string *)
(* ===================================================================== *)

Lemma starts_with_app p t : starts_with p (p ++ t) = true.
Proof.
  induction p as [|c p IH]; [done|].
  cbn [starts_with app]. by rewrite N.eqb_refl, IH.
Qed.

Lemma starts_with_inv p s :
  starts_with p s = true -> s = p ++ skipn (length p) s.
Proof.
  revert s. induction p as [|c p IH]; intros s; [done|].
  destruct s as [|c' s]; [done|].
  cbn [starts_with]. intros [Hc Hp]%andb_prop.
  apply N.eqb_eq in Hc as ->. cbn [app length skipn]. f_equal. by apply IH.
Qed.

Lemma occurs_cons p c s : occurs p s -> occurs p (c :: s).
Proof. intros (a & b & ->). by exists (c :: a), b. Qed.

Lemma occurs_skipn p k s : occurs p (skipn k s) -> occurs p s.
Proof.
  intros (a & b & H). exists (firstn k s ++ a), b.
  rewrite <- (firstn_skipn k s) at 1. rewrite H. by rewrite <- app_assoc.
Qed.

Lemma occurs_app_r p a s : occurs p s -> occurs p (a ++ s).
Proof. intros (u & v & ->). exists (a ++ u), v. by rewrite <- app_assoc. Qed.

Lemma occurs_app_l p s b : occurs p s -> occurs p (s ++ b).
Proof. intros (u & v & ->). exists u, (v ++ b). by rewrite <- !app_assoc. Qed.

Lemma occurs_here p b : occurs p (p ++ b).
Proof. by exists [], b. Qed.

Section FirstOccurrence.

Variable p : list N.
Hypothesis p_nonempty : p <> [].

Lemma not_occurs_nil : ~ occurs p [].
Proof.
  intros (a & b & H). symmetry in H.
  apply app_eq_nil in H as [_ H]. apply app_eq_nil in H as [H _]. done.
Qed.

(** A successful search splits the string at the first occurrence. *)
Lemma index_of_Some s i :
  index_of p s = Some i ->
  exists a b, s = a ++ p ++ b /\ length a = i /\ ~ occurs p a.
Proof.
  revert i. induction s as [|c s IH]; intros i.
  - cbn [index_of]. destruct (starts_with p []) eqn:Hp; [|done].
    intros [= <-]. exists [], (skipn (length p) []).
    split; [by apply starts_with_inv|]. split; [done|apply not_occurs_nil].
  - cbn [index_of]. destruct (starts_with p (c :: s)) eqn:Hp.
    + intros [= <-]. exists [], (skipn (length p) (c :: s)).
      split; [by apply starts_with_inv|]. split; [done|apply not_occurs_nil].
    + destruct (index_of p s) as [i'|]; [|done]. cbn [option_map].
      intros [= <-]. destruct (IH i' eq_refl) as (a & b & -> & Hlen & Hno).
      exists (c :: a), b. split; [done|]. split; [by cbn [length]; f_equal|].
      intros ([|c' u] & v & Huv).
      * cbn [app] in Huv.
        assert (c :: a ++ p ++ b = p ++ (v ++ p ++ b)) as Heq.
        { change (c :: a ++ p ++ b) with ((c :: a) ++ p ++ b).
          rewrite Huv. by rewrite <- app_assoc. }
        rewrite Heq, starts_with_app in Hp. done.
      * injection Huv as -> ->. apply Hno. by exists u, v.
Qed.

(** Any occurrence makes the search succeed, at or before it. *)
Lemma index_of_occurs a b :
  exists i, index_of p (a ++ p ++ b) = Some i /\ (i <= length a)%nat.
Proof.
  induction a as [|c a (i & Hi & Hle)].
  - exists 0%nat. split; [|done]. cbn [app].
    destruct (p ++ b) eqn:E; cbn [index_of]; rewrite <- E, starts_with_app; done.
  - cbn [app index_of]. destruct (starts_with p (c :: a ++ p ++ b)).
    + exists 0%nat. split; [done|lia].
    + rewrite Hi. exists (S i). split; [done|cbn [length]; lia].
Qed.

Lemma index_of_None s : index_of p s = None <-> ~ occurs p s.
Proof.
  split.
  - intros H (a & b & ->). destruct (index_of_occurs a b) as (i & Hi & _).
    congruence.
  - intros Hno. destruct (index_of p s) as [i|] eqn:Hi; [|done].
    destruct (index_of_Some _ _ Hi) as (a & b & -> & _ & _).
    exfalso. apply Hno. by exists a, b.
Qed.

(** The first occurrence is where the search says. *)
Lemma index_of_first a b :
  ~ occurs p (a ++ removelast p) ->
  index_of p (a ++ p ++ b) = Some (length a).
Proof.
  induction a as [|c a IH]; intros Hno.
  - cbn [app length].
    destruct (p ++ b) eqn:E; cbn [index_of]; rewrite <- E, starts_with_app; done.
  - cbn [app index_of length].
    destruct (starts_with p (c :: a ++ p ++ b)) eqn:Hp.
    + exfalso. apply Hno. apply starts_with_inv in Hp.
      set (t := skipn (length p) _) in Hp.
      pose proof (app_removelast_last 0%N p_nonempty) as Hlast.
      set (z := List.last p 0%N) in Hlast.
      assert (Hlen : length p = S (length (removelast p))).
      { rewrite Hlast at 1. rewrite length_app. cbn [length]. lia. }
      change (c :: a ++ p ++ b) with ((c :: a) ++ p ++ b) in Hp.
      rewrite Hlast in Hp at 1. rewrite <- app_assoc, app_assoc in Hp.
      apply app_eq_inv in Hp as [(k & Hk & _)|(k & Hk & _)].
      * exists [], k. exact Hk.
      * exists [], []. rewrite app_nil_r. cbn [app].
        assert (k = []) as ->.
        { apply (f_equal length) in Hk. rewrite !length_app in Hk.
          cbn [length] in Hk. destruct k; [done|cbn [length] in Hk; lia]. }
        by rewrite app_nil_r in Hk.
    + rewrite IH; [done|]. intros Ho. apply Hno. by apply occurs_cons.
Qed.

End FirstOccurrence.

(* ===================================================================== *)
(** ** Hiding the diagram block *)
(* ===================================================================== *)

Lemma startMarker_nonempty : startMarker <> [].
Proof. discriminate. Qed.

Lemma endMarker_nonempty : endMarker <> [].
Proof. discriminate. Qed.

Lemma indexOf_absent s p : indexOf s p = -1 <-> index_of p s = None.
Proof. unfold indexOf. destruct (index_of p s); split; (done || lia). Qed.

Lemma block_match_here_Some s len :
  block_match_here s = Some len ->
  exists body post,
    s = startMarker ++ body ++ endMarker ++ post
    /\ len = (length startMarker + length body + length endMarker)%nat
    /\ ~ occurs endMarker body.
Proof.
  unfold block_match_here.
  destruct (starts_with startMarker s) eqn:Hs; [|done].
  destruct (index_of endMarker _) as [k|] eqn:Hk; [|done].
  intros [= <-].
  destruct (index_of_Some _ endMarker_nonempty _ _ Hk) as (body & post & Heq & <- & Hno).
  exists body, post. split; [|done].
  rewrite (starts_with_inv _ _ Hs). by rewrite Heq.
Qed.

Lemma block_match_here_block body post :
  block_match_here (startMarker ++ body ++ endMarker ++ post) <> None.
Proof.
  unfold block_match_here. rewrite starts_with_app, drop_app_length.
  destruct (index_of_occurs endMarker body post) as (i & -> & _). done.
Qed.

Lemma block_exec_Some s i len :
  block_exec s = Some (i, len) ->
  exists pre body post,
    s = pre ++ startMarker ++ body ++ endMarker ++ post
    /\ i = length pre
    /\ len = (length startMarker + length body + length endMarker)%nat
    /\ ~ occurs startMarker pre
    /\ ~ occurs endMarker body.
Proof.
  revert i. induction s as [|c s IH]; intros i; [done|].
  cbn [block_exec]. destruct (block_match_here (c :: s)) as [len'|] eqn:Hm.
  - intros [= <- <-].
    destruct (block_match_here_Some _ _ Hm) as (body & post & Heq & Hlen & Hno).
    exists [], body, post. repeat split; try done.
    apply (not_occurs_nil _ startMarker_nonempty).
  - destruct (block_exec s) as [[i' len']|] eqn:He; [|done].
    intros [= <- <-].
    destruct (IH i' eq_refl) as (pre & body & post & -> & -> & Hlen & Hpre & Hbody).
    exists (c :: pre), body, post. repeat split; try done.
    intros ([|c' u] & v & Huv).
    + cbn [app] in Huv.
      change (c :: pre ++ ?r) with ((c :: pre) ++ r) in Hm.
      rewrite Huv, <- !app_assoc in Hm.
      rewrite (app_assoc v), (app_assoc (v ++ startMarker)) in Hm.
      by apply block_match_here_block in Hm.
    + injection Huv as -> ->. apply Hpre. by exists u, v.
Qed.

Lemma block_exec_block pre body post :
  block_exec (pre ++ startMarker ++ body ++ endMarker ++ post) <> None.
Proof.
  induction pre as [|c pre IH].
  - cbn [app]. pose proof (block_match_here_block body post) as Hm.
    destruct (startMarker ++ body ++ endMarker ++ post) eqn:E;
      cbn [block_exec]; by destruct (block_match_here _).
  - cbn [app block_exec]. destruct (block_match_here _); [done|].
    by destruct (block_exec _) as [[? ?]|].
Qed.

Lemma block_exec_None s : block_exec s = None <-> ~ has_block s.
Proof.
  split.
  - intros H (pre & body & post & ->). by apply block_exec_block in H.
  - intros Hno. destruct (block_exec s) as [[i len]|] eqn:He; [|done].
    destruct (block_exec_Some _ _ _ He) as (pre & body & post & Heq & _).
    exfalso. apply Hno. by exists pre, body, post.
Qed.

Lemma replace_blocks_None fuel s : block_exec s = None -> replace_blocks fuel s = s.
Proof. intros H. destruct fuel; cbn [replace_blocks]; by rewrite ?H. Qed.

(** With fuel for every code unit the loop has found every block. *)
Lemma replace_blocks_Stripped fuel s :
  (length s <= fuel)%nat -> Stripped s (replace_blocks fuel s).
Proof.
  revert s. induction fuel as [|fuel IH]; intros s Hlen.
  - destruct s; [|cbn [length] in Hlen; lia]. cbn [replace_blocks].
    apply Stripped_rest. by apply block_exec_None.
  - cbn [replace_blocks]. destruct (block_exec s) as [[i len]|] eqn:He.
    + destruct (block_exec_Some _ _ _ He)
        as (pre & body & post & -> & -> & -> & Hpre & Hbody).
      rewrite take_app_length.
      replace (drop _ _) with post.
      * apply Stripped_block; [done|done|]. apply IH.
        rewrite !length_app in Hlen.
        assert (0 < length startMarker)%nat by (cbn; lia). lia.
      * rewrite (app_assoc startMarker), (app_assoc _ endMarker), (app_assoc pre).
        rewrite drop_app_length'; [done|]. rewrite !length_app. lia.
    + apply Stripped_rest. by apply block_exec_None.
Qed.

Lemma has_block_markers s :
  has_block s -> occurs startMarker s /\ occurs endMarker s.
Proof.
  intros (pre & body & post & ->). split.
  - by exists pre, (body ++ endMarker ++ post).
  - exists (pre ++ startMarker ++ body), post. by rewrite <- !app_assoc.
Qed.

Section Marker.

(** A marker whose first code unit does not come back later in it cannot
    overlap a copy of itself. *)
Variables (c : N) (m' : list N).
Hypothesis c_fresh : ~ In c m'.

Lemma no_overlap a :
  ~ occurs (c :: m') a -> ~ occurs (c :: m') (a ++ removelast (c :: m')).
Proof.
  intros Hno (u & v & Huv).
  assert (Hlen : length (c :: m') = S (length (removelast (c :: m')))).
  { rewrite (app_removelast_last 0%N (l := c :: m')) at 1 by done.
    rewrite length_app. cbn [length]. lia. }
  apply app_eq_inv in Huv as [(k & Ha & Hk)|(k & _ & Hk)].
  - apply app_eq_inv in Hk as [(k' & Hm & Hr)|(k' & Hk' & _)].
    + destruct k as [|c0 k].
      * cbn [app] in Hm. subst k'.
        apply (f_equal length) in Hr. rewrite length_app in Hr. lia.
      * destruct k' as [|c' k'].
        { apply Hno. exists u, []. by rewrite Ha, Hm, !app_nil_r. }
        destruct m' as [|c1 m1];
          [cbn [app] in Hm; injection Hm as _ Hm; by destruct k|].
        cbn [app] in Hm. injection Hm as <- Hm.
        cbn [removelast] in Hr. injection Hr as <- _.
        apply c_fresh. rewrite Hm. apply in_or_app. right. by left.
    + apply Hno. exists u, k'. by rewrite Ha, Hk'.
  - apply (f_equal length) in Hk. rewrite !length_app in Hk. lia.
Qed.

End Marker.

Lemma startMarker_no_overlap a :
  ~ occurs startMarker a -> ~ occurs startMarker (a ++ removelast startMarker).
Proof.
  apply (no_overlap 91%N (tl startMarker)).
  cbn. intros H. repeat (destruct H as [H|H]; [discriminate H|]). done.
Qed.

Lemma endMarker_no_overlap a :
  ~ occurs endMarker a -> ~ occurs endMarker (a ++ removelast endMarker).
Proof.
  apply (no_overlap 91%N (tl endMarker)).
  cbn. intros H. repeat (destruct H as [H|H]; [discriminate H|]). done.
Qed.

Lemma block_exec_first pre body post :
  ~ occurs startMarker pre -> ~ occurs endMarker body ->
  block_exec (pre ++ startMarker ++ body ++ endMarker ++ post)
  = Some (length pre, (length startMarker + length body + length endMarker)%nat).
Proof.
  intros Hpre Hbody.
  destruct (block_exec _) as [[i len]|] eqn:He;
    [|by apply block_exec_block in He].
  destruct (block_exec_Some _ _ _ He)
    as (pre' & body' & post' & Heq & -> & -> & Hpre' & Hbody').
  pose proof (index_of_first _ startMarker_nonempty pre
                (body ++ endMarker ++ post) (startMarker_no_overlap _ Hpre)) as H1.
  rewrite Heq in H1.
  rewrite (index_of_first _ startMarker_nonempty pre' _
             (startMarker_no_overlap _ Hpre')) in H1.
  injection H1 as Hlen.
  assert (pre' = pre) as ->.
  { apply (f_equal (firstn (length pre))) in Heq.
    rewrite take_app_length in Heq. rewrite <- Hlen in Heq.
    by rewrite take_app_length in Heq. }
  apply app_inv_head in Heq. apply app_inv_head in Heq.
  pose proof (index_of_first _ endMarker_nonempty body post
                (endMarker_no_overlap _ Hbody)) as H2.
  rewrite Heq in H2.
  rewrite (index_of_first _ endMarker_nonempty body' post'
             (endMarker_no_overlap _ Hbody')) in H2.
  injection H2 as ->. done.
Qed.

(** [Stripped] determines its result, and the loop computes it. *)
Lemma Stripped_replace_blocks s out :
  Stripped s out -> forall fuel, (length s <= fuel)%nat -> replace_blocks fuel s = out.
Proof.
  induction 1 as [s Hno|pre body post out Hpre Hbody Hpost IH]; intros fuel Hlen.
  - apply replace_blocks_None. by apply block_exec_None.
  - destruct fuel as [|fuel].
    { rewrite !length_app in Hlen.
      assert (0 < length startMarker)%nat by (cbn; lia). lia. }
    cbn [replace_blocks]. rewrite (block_exec_first _ _ _ Hpre Hbody).
    rewrite take_app_length. f_equal. f_equal.
    rewrite (app_assoc startMarker), (app_assoc _ endMarker), (app_assoc pre).
    rewrite drop_app_length' by (rewrite !length_app; lia).
    apply IH. rewrite !length_app in Hlen.
    assert (0 < length startMarker)%nat by (cbn; lia). lia.
Qed.

(** C9: [stripDiagramMarkers] returns the trimmed text in which each
    delimited block, from [[DIAGRAM_START]] to the first [[DIAGRAM_END]]
    after it and both included, has given way to the placeholder
    [[Diagram generated]]; when one of the markers is absent it returns
    the trimmed input. *)
Theorem stripDiagramMarkers_spec (response : list N) :
  (exists out, Stripped response out)
  /\ (forall out, Stripped response out -> stripDiagramMarkers response = trim out)
  /\ (indexOf response startMarker = -1 \/ indexOf response endMarker = -1 ->
      stripDiagramMarkers response = trim response).
Proof.
  unfold stripDiagramMarkers. split; [|split].
  - eexists. by apply replace_blocks_Stripped.
  - intros out Hout. by rewrite (Stripped_replace_blocks _ _ Hout).
  - intros H. rewrite replace_blocks_None; [done|].
    apply block_exec_None. intros [Hs He]%has_block_markers.
    destruct H as [H|H]; apply indexOf_absent in H.
    + by apply (index_of_None _ startMarker_nonempty) in H.
    + by apply (index_of_None _ endMarker_nonempty) in H.
Qed.

Lemma stripDiagramMarkers_spec_witness :
  (indexOf plain_response startMarker = -1
   \/ indexOf plain_response endMarker = -1)
  /\ stripDiagramMarkers plain_response = trim plain_response
  /\ Stripped block_response (lit "Here it is: [Diagram generated] Done. ")
  /\ stripDiagramMarkers block_response
     = trim (lit "Here it is: [Diagram generated] Done. ").
Proof.
  assert (H1 : indexOf plain_response startMarker = -1
               \/ indexOf plain_response endMarker = -1)
    by (left; reflexivity).
  assert (H2 : Stripped block_response (lit "Here it is: [Diagram generated] Done. ")).
  { apply (Stripped_block (lit "Here it is: ") two_node_json (lit " Done. ")).
    - apply (index_of_None _ startMarker_nonempty). reflexivity.
    - apply (index_of_None _ endMarker_nonempty). reflexivity.
    - apply Stripped_rest. apply block_exec_None. reflexivity. }
  split; [exact H1|]. split; [|split; [exact H2|]].
  - exact (proj2 (proj2 (stripDiagramMarkers_spec plain_response)) H1).
  - exact (proj1 (proj2 (stripDiagramMarkers_spec block_response)) _ H2).
Defined.

Example stripDiagramMarkers_block :
  stripDiagramMarkers block_response = lit "Here it is: [Diagram generated] Done.".
Proof. vm_compute. reflexivity. Qed.

(* ===================================================================== *)
(** ** The extractor *)
(* ===================================================================== *)

Lemma extract_unfold JSON_parse response :
  extractDiagramFromResponse JSON_parse response =
  if (indexOf response startMarker =? -1) || (indexOf response endMarker =? -1)
  then Normal None
  else
    match JSON_parse (delimited_text response) with
    | Throw _ => Normal None
    | Normal diagram =>
        match validateDiagram diagram with
        | Normal true => Normal (Some diagram)
        | _ => Normal None
        end
    end.
Proof.
  unfold extractDiagramFromResponse, delimited_text.
  destruct (_ || _); [done|].
  destruct (JSON_parse _) as [diagram|e]; [|done]. step.
  by destruct (validateDiagram diagram) as [[|]|e'].
Qed.

(** Between the markers: when the text has a block the extractor parses
    the trimmed body of the first one. *)
Lemma delimited_text_block pre body post :
  ~ occurs startMarker pre ->
  ~ occurs endMarker (pre ++ startMarker ++ body) ->
  delimited_text (pre ++ startMarker ++ body ++ endMarker ++ post) = trim body.
Proof.
  intros Hpre Hbody.
  assert (H1 : index_of startMarker (pre ++ startMarker ++ body ++ endMarker ++ post)
               = Some (length pre)).
  { apply (index_of_first _ startMarker_nonempty). by apply startMarker_no_overlap. }
  assert (H2 : index_of endMarker (pre ++ startMarker ++ body ++ endMarker ++ post)
               = Some (length (pre ++ startMarker ++ body))).
  { replace (pre ++ startMarker ++ body ++ endMarker ++ post)
      with ((pre ++ startMarker ++ body) ++ endMarker ++ post)
      by (by rewrite <- !app_assoc).
    apply (index_of_first _ endMarker_nonempty). by apply endMarker_no_overlap. }
  unfold delimited_text, indexOf. rewrite H1, H2. f_equal.
  unfold substring. rewrite !length_app.
  set (a := length pre). set (b := length body). set (m := length startMarker).
  set (c := (length endMarker + length post)%nat).
  replace (Z.to_nat (Z.min _ _)) with (a + m)%nat by lia.
  replace (Z.to_nat (_ - _)) with b by lia.
  rewrite (app_assoc pre).
  rewrite drop_app_length' by (rewrite length_app; lia).
  subst b. by rewrite take_app_length.
Qed.


(** The end marker is searched from the start of the text, not from the
    start marker: when the first end marker comes first, [substring] swaps
    its arguments and the text handed to [JSON.parse] runs from that end
    marker to the end of the start marker. *)
Example delimited_text_end_first :
  delimited_text (endMarker ++ lit " " ++ block_response)
  = endMarker ++ lit " Here it is: " ++ startMarker
  /\ extractDiagramFromResponse parse_two_node (endMarker ++ lit " " ++ block_response)
     = Normal None.
Proof. split; vm_compute; reflexivity. Qed.


(* ===================================================================== *)
(** ** The shape synthesizer *)
(* ===================================================================== *)

Local Open Scope nat_scope.

Lemma str_eqb_eq a b : str_eqb a b = true <-> a = b.
Proof.
  revert b. induction a as [|c a IH]; intros [|c' b]; cbn [str_eqb]; try done.
  rewrite andb_true_iff, N.eqb_eq, IH. split; [by intros [-> ->]|by intros [= -> ->]].
Qed.

Lemma node_step_eq m wd n :
  node_step (m, wd) n
  = (<[node_id (base n) := next_id wd]> m,
     {| next_id := S (next_id wd);
        created := created wd ++ [node_shape (next_id wd) n] |}).
Proof. reflexivity. Qed.

Lemma node_loop (nodes : list PositionedNode) (m : gmap (list N) ShapeId) (wd : World) :
  snd (fold_left node_step nodes (m, wd))
  = {| next_id := next_id wd + length nodes;
       created := created wd ++ imap (fun i n => node_shape (next_id wd + i) n) nodes |}.
Proof.
  revert m wd. induction nodes as [|n nodes IH]; intros m wd.
  - cbn. rewrite Nat.add_0_r, app_nil_r. by destruct wd.
  - cbn [fold_left]. rewrite node_step_eq, IH.
    cbn [next_id created length]. f_equal; [lia|].
    rewrite <- app_assoc. f_equal. rewrite imap_cons. cbn [app].
    rewrite Nat.add_0_r. f_equal. apply imap_ext. intros i n' _.
    cbn. f_equal. lia.
Qed.

Lemma node_loop_map (nodes : list PositionedNode) (m : gmap (list N) ShapeId)
    (wd : World) (k : list N) :
  is_Some (fst (fold_left node_step nodes (m, wd)) !! k)
  <-> is_Some (m !! k) \/ exists n, In n nodes /\ node_id (base n) = k.
Proof.
  revert m wd. induction nodes as [|n nodes IH]; intros m wd.
  - cbn. split; [by left|]. by intros [H|(n & [] & _)].
  - cbn [fold_left]. rewrite node_step_eq, IH.
    rewrite lookup_insert_is_Some. split.
    + intros [[Heq|[_ H]]|(n' & Hin & Hk)].
      * right. exists n. split; [by left|done].
      * by left.
      * right. exists n'. split; [by right|done].
    + intros [H|(n' & [->|Hin] & Hk)].
      * destruct (decide (node_id (base n) = k)); [by left; left|].
        left. right. done.
      * left. by left.
      * right. by exists n'.
Qed.

Lemma id_map_lookup layout wd k :
  is_Some (id_map layout wd !! k)
  <-> exists n, In n (layout_nodes layout) /\ node_id (base n) = k.
Proof.
  unfold id_map. rewrite node_loop_map, lookup_empty. split.
  - by intros [[? [=]]|H].
  - by right.
Qed.

Lemma find_node_Some layout k :
  (exists n, In n (layout_nodes layout) /\ node_id (base n) = k) ->
  exists s, find_node layout k = Some s /\ node_id (base s) = k.
Proof.
  intros (n & Hin & Hk). unfold find_node.
  destruct (find _ _) as [s|] eqn:Hf.
  - exists s. split; [done|]. apply find_some in Hf as [_ Hs].
    by apply str_eqb_eq.
  - exfalso. apply (find_none _ _ Hf) in Hin.
    apply str_eqb_eq in Hk. congruence.
Qed.

Lemma edge_step_connector layout m wd e :
  edge_step layout m wd e =
  match connector layout m e with
  | Some c =>
      {| next_id := S (next_id wd);
         created := created wd ++ [arrow_shape (next_id wd) c] |}
  | None => wd
  end.
Proof.
  unfold edge_step, connector, resolves.
  destruct (m !! source e); [|done]. destruct (m !! target e); [|done].
  destruct (find_node layout (source e)); [|done].
  by destruct (find_node layout (target e)).
Qed.

Lemma edge_loop layout m (edges : list GraphEdge) (wd : World) :
  fold_left (edge_step layout m) edges wd
  = {| next_id := next_id wd + length (omap (connector layout m) edges);
       created := created wd
                  ++ imap (fun i c => arrow_shape (next_id wd + i) c)
                          (omap (connector layout m) edges) |}.
Proof.
  revert wd. induction edges as [|e edges IH]; intros wd.
  - cbn. rewrite Nat.add_0_r, app_nil_r. by destruct wd.
  - cbn [fold_left omap list_omap]. rewrite IH, edge_step_connector.
    destruct (connector layout m e) as [c|]; [|done].
    cbn [next_id created length]. f_equal; [lia|].
    rewrite <- app_assoc. f_equal. rewrite imap_cons. cbn [app].
    rewrite Nat.add_0_r. f_equal. apply imap_ext. intros i c' _.
    cbn. f_equal. lia.
Qed.

(** The batch in closed form: the node shapes, then the arrows. *)
Lemma generateTldrawShapes_created layout wd :
  created (generateTldrawShapes layout wd)
  = created wd
    ++ imap (fun i n => node_shape (next_id wd + i) n) (layout_nodes layout)
    ++ imap (fun i c => arrow_shape (next_id wd + length (layout_nodes layout) + i) c)
            (omap (connector layout (id_map layout wd)) (layout_edges layout)).
Proof.
  unfold generateTldrawShapes, id_map.
  pose proof (node_loop (layout_nodes layout) ∅ wd) as Hn.
  destruct (fold_left node_step _ _) as [m wd1]. cbn [fst snd] in *. subst wd1.
  rewrite edge_loop. cbn [created next_id]. by rewrite <- app_assoc.
Qed.

Lemma connector_resolves layout wd e :
  resolves (id_map layout wd) e = true ->
  exists s t,
    find_node layout (source e) = Some s
    /\ find_node layout (target e) = Some t
    /\ connector layout (id_map layout wd) e
       = Some (bottom_center s, top_center t, label_or_empty (edge_label e)).
Proof.
  intros Hr. unfold connector. rewrite Hr. unfold resolves in Hr.
  destruct (id_map layout wd !! source e) as [i|] eqn:Hs; [|done].
  destruct (id_map layout wd !! target e) as [j|] eqn:Ht; [|done].
  destruct (find_node_Some layout (source e)) as (s & -> & _).
  { apply (id_map_lookup layout wd). eauto. }
  destruct (find_node_Some layout (target e)) as (t & -> & _).
  { apply (id_map_lookup layout wd). eauto. }
  by exists s, t.
Qed.

Lemma connector_None layout wd e :
  connector layout (id_map layout wd) e = None
  <-> resolves (id_map layout wd) e = false.
Proof.
  split.
  - intros Hc. destruct (resolves _ e) eqn:Hr; [|done].
    destruct (connector_resolves _ _ _ Hr) as (s & t & _ & _ & Hc'). congruence.
  - intros Hr. unfold connector. by rewrite Hr.
Qed.

Lemma resolves_iff layout wd e :
  resolves (id_map layout wd) e = true
  <-> (exists n, In n (layout_nodes layout) /\ node_id (base n) = source e)
      /\ (exists n, In n (layout_nodes layout) /\ node_id (base n) = target e).
Proof.
  rewrite <- !(id_map_lookup layout wd). unfold resolves.
  destruct (id_map layout wd !! source e), (id_map layout wd !! target e);
    split; try done.
  - by intros [_ [? [=]]].
  - by intros [[? [=]] _].
  - by intros [[? [=]] _].
Qed.

(** C3, as stated, fails: for two nodes laid out side by side, as a
    left-to-right layout places them, the one connector starts at the
    middle of the bottom face of the source and ends at the middle of the
    top face of the target, which are not the faces that look along a
    left-to-right axis. *)
Lemma connector_direction_counterexample :
  omap arrow_anchors (created (generateTldrawShapes lr_layout world0))
  = [(bottom_center node_a, top_center node_b)]
  /\ ~ Point_eq (bottom_center node_a) (downstream_face_mid LR node_a)
  /\ ~ Point_eq (top_center node_b) (upstream_face_mid LR node_b).
Proof.
  split; [vm_compute; reflexivity|].
  split; intros [Hx _]; vm_compute in Hx; discriminate Hx.
Qed.

(** C3 (amended): for every edge of a layout whose source and target
    resolve through the id map, the batch holds a connector that starts at
    the middle of the bottom face of the source node's box and ends at the
    middle of the top face of the target node's box, the downstream and
    upstream faces of a top-to-bottom layout, whatever direction the layout
    was computed with; its text is the edge's label, or empty when the edge
    has none. *)
Theorem connector_anchors (layout : LayoutResult) (wd : World) (e : GraphEdge) :
  In e (layout_edges layout) ->
  resolves (id_map layout wd) e = true ->
  exists s t id,
    find_node layout (source e) = Some s
    /\ find_node layout (target e) = Some t
    /\ In (ArrowShape id 0 0
             (downstream_face_mid TB s) (upstream_face_mid TB t)
             (label_or_empty (edge_label e)))
          (created (generateTldrawShapes layout wd)).
Proof.
  intros Hin Hr.
  destruct (connector_resolves _ _ _ Hr) as (s & t & Hs & Ht & Hc).
  assert (Hel : (bottom_center s, top_center t, label_or_empty (edge_label e))
                ∈ omap (connector layout (id_map layout wd)) (layout_edges layout)).
  { apply list_elem_of_omap. exists e. split; [by apply list_elem_of_In|done]. }
  apply list_elem_of_lookup in Hel as [i Hi].
  exists s, t, (next_id wd + length (layout_nodes layout) + i).
  split; [done|]. split; [done|].
  rewrite generateTldrawShapes_created. apply in_or_app. right.
  apply in_or_app. right. apply list_elem_of_In.
  apply (elem_of_lookup_imap_2
           (fun i c => arrow_shape (next_id wd + length (layout_nodes layout) + i) c)
           _ _ i Hi).
Qed.

Lemma connector_anchors_witness :
  In (edge "e1" "a" "b") (layout_edges lr_layout)
  /\ resolves (id_map lr_layout world0) (edge "e1" "a" "b") = true
  /\ exists s t id,
      find_node lr_layout (source (edge "e1" "a" "b")) = Some s
      /\ find_node lr_layout (target (edge "e1" "a" "b")) = Some t
      /\ In (ArrowShape id 0 0
               (downstream_face_mid TB s) (upstream_face_mid TB t)
               (label_or_empty (edge_label (edge "e1" "a" "b"))))
            (created (generateTldrawShapes lr_layout world0)).
Proof.
  assert (H1 : In (edge "e1" "a" "b") (layout_edges lr_layout)) by (left; reflexivity).
  assert (H2 : resolves (id_map lr_layout world0) (edge "e1" "a" "b") = true)
    by (vm_compute; reflexivity).
  split; [exact H1|]. split; [exact H2|].
  exact (connector_anchors lr_layout world0 (edge "e1" "a" "b") H1 H2).
Defined.

(** C5: the batch is the batch before, then one shape per positioned
    node, in order, then one connector per edge whose two ends resolve
    through the id map, in order.  An id resolves exactly when it is the id
    of a positioned node; an edge with an end that does not resolve gets no
    connector and leaves the world as it was; no node shape is lost, and
    nothing fails. *)
Theorem generateTldrawShapes_batch (layout : LayoutResult) (wd : World) :
  created (generateTldrawShapes layout wd)
  = created wd
    ++ imap (fun i n => node_shape (next_id wd + i) n) (layout_nodes layout)
    ++ imap (fun i c => arrow_shape (next_id wd + length (layout_nodes layout) + i) c)
            (omap (connector layout (id_map layout wd)) (layout_edges layout))
  /\ length (filter (fun s => is_geo s = true)
                    (drop (length (created wd))
                          (created (generateTldrawShapes layout wd))))
     = length (layout_nodes layout)
  /\ (forall k, is_Some (id_map layout wd !! k)
                <-> exists n, In n (layout_nodes layout) /\ node_id (base n) = k)
  /\ (forall e, resolves (id_map layout wd) e = true
                <-> (exists n, In n (layout_nodes layout)
                               /\ node_id (base n) = source e)
                    /\ (exists n, In n (layout_nodes layout)
                                  /\ node_id (base n) = target e))
  /\ (forall e, connector layout (id_map layout wd) e = None
                <-> resolves (id_map layout wd) e = false)
  /\ (forall e wd', resolves (id_map layout wd) e = false ->
                    edge_step layout (id_map layout wd) wd' e = wd').
Proof.
  split; [apply generateTldrawShapes_created|].
  split; [|split; [apply id_map_lookup|
                   split; [apply resolves_iff|split; [apply connector_None|]]]].
  - rewrite generateTldrawShapes_created, drop_app_length, filter_app, length_app.
    assert (Hgeo : forall (f : nat -> PositionedNode -> Shape) l,
               (forall i n, is_geo (f i n) = true) ->
               length (filter (fun s => is_geo s = true) (imap f l)) = length l).
    { intros f l. revert f. induction l as [|n l IH]; intros f Hf; [done|].
      rewrite imap_cons, filter_cons_True by apply Hf.
      cbn [length]. f_equal. apply IH. intros i n'. apply Hf. }
    assert (Harr : forall (f : nat -> Point * Point * list N -> Shape) l,
               (forall i c, is_geo (f i c) = false) ->
               length (filter (fun s => is_geo s = true) (imap f l)) = 0).
    { intros f l. revert f. induction l as [|c l IH]; intros f Hf; [done|].
      rewrite imap_cons, filter_cons_False by (rewrite Hf; done).
      apply IH. intros i c'. apply Hf. }
    rewrite Hgeo, Harr by done. lia.
  - intros e wd' Hr. rewrite edge_step_connector.
    by rewrite (proj2 (connector_None layout wd e) Hr).
Qed.

Lemma generateTldrawShapes_batch_witness :
  resolves (id_map dangling_layout world0) (edge "e0" "a" "zz") = false
  /\ edge_step dangling_layout (id_map dangling_layout world0) world0
               (edge "e0" "a" "zz") = world0
  /\ created (generateTldrawShapes dangling_layout world0)
     = [node_shape 0 node_a; node_shape 1 node_b;
        arrow_shape 2 (bottom_center node_a, top_center node_b, [])].
Proof.
  assert (H : resolves (id_map dangling_layout world0) (edge "e0" "a" "zz") = false)
    by (vm_compute; reflexivity).
  split; [exact H|]. split.
  - exact (proj2 (proj2 (proj2 (proj2 (proj2
             (generateTldrawShapes_batch dangling_layout world0)))))
             (edge "e0" "a" "zz") world0 H).
  - vm_compute. reflexivity.
Defined.

(* ===================================================================== *)
(** ** The layout engine *)
(* ===================================================================== *)

Lemma getAutoLayout_eq dagre_layout graphModel options :
  getAutoLayout dagre_layout graphModel options
  = {| layout_nodes :=
         map (fun node =>
                place options
                      (dagre_layout (dagre_input graphModel options) (node_id node))
                      node)
             (nodes graphModel);
       layout_edges := edges graphModel |}.
Proof. reflexivity. Qed.



(** C8: the empty model gives the empty result, and a model of one node
    and no edge gives a result of exactly one positioned node, which is
    that node. *)
Theorem getAutoLayout_degenerate
    (dagre_layout : DagreGraph -> list N -> float * float) (options : option LayoutOptions) :
  getAutoLayout dagre_layout {| nodes := []; edges := [] |} options
  = {| layout_nodes := []; layout_edges := [] |}
  /\ forall node,
      exists p,
        getAutoLayout dagre_layout {| nodes := [node]; edges := [] |} options
        = {| layout_nodes := [p]; layout_edges := [] |}
        /\ base p = node.
Proof.
  split; [reflexivity|]. intros node. eexists. split; reflexivity.
Qed.

Example getAutoLayout_singleton :
  length (layout_nodes (getAutoLayout engine_fixed singleton_model None)) = 1.
Proof. reflexivity. Qed.

(* ===================================================================== *)
(** ** Further properties of the validator *)
(* ===================================================================== *)

Local Open Scope Z_scope.

Lemma existsb_find {A} (f : A -> bool) xs :
  existsb f xs = match find f xs with Some _ => true | None => false end.
Proof.
  induction xs as [|a xs IH]; [done|]. cbn [existsb find].
  by destruct (f a).
Qed.

Lemma scan_find (rej : Value -> bool) xs :
  (forall v, defined v = false -> rej v = true) ->
  scan (fun v => negb (rej v)) xs =
  match find rej xs with
  | Some v => if defined v then Normal (Some false) else Throw TypeError
  | None => Normal None
  end.
Proof.
  intros Hrej. induction xs as [|v xs IH]; [done|]. cbn [scan find].
  destruct (defined v) eqn:Hd; step.
  - destruct (rej v); step; [by rewrite Hd|exact IH].
  - by rewrite (Hrej _ Hd), Hd.
Qed.

(** X1: the validator on every input: a TypeError when it stops at an element
    that is [null] or [undefined], and otherwise the boolean that tells
    whether no ground for rejection applies. *)
Theorem validateDiagram_closed_form (d : Value) :
  validateDiagram d = if throws d then Throw TypeError else Normal (negb (rejects d)).
Proof.
  rewrite validateDiagram_scan. unfold throws, rejects, first_offender.
  destruct (is_object d); [|done].
  destruct (isArray (field d k_nodes)); [|done].
  destruct (isArray (field d k_edges)); [|done].
  cbn [negb orb andb].
  rewrite (scan_find node_rejected) by apply rejected_of_undefined.
  rewrite (scan_find (edge_rejected _)) by apply edge_rejected_of_undefined.
  rewrite !existsb_find.
  destruct (find node_rejected _) as [v|]; [by destruct (defined v)|]. step.
  destruct (find (edge_rejected _) _) as [v|]; [by destruct (defined v)|]. done.
Qed.

Lemma is_node_id_mono ns ns' v :
  (forall n, In n ns -> In n ns') -> is_node_id ns v = true -> is_node_id ns' v = true.
Proof.
  unfold is_node_id. rewrite !existsb_exists. intros Hsub (n & Hin & Hn).
  exists n. auto.
Qed.

Lemma rejects_false_inv d :
  rejects d = false ->
  is_object d = true
  /\ isArray (field d k_nodes) = true
  /\ isArray (field d k_edges) = true
  /\ (forall n, In n (elems (field d k_nodes)) -> node_rejected n = false)
  /\ (forall e, In e (elems (field d k_edges)) ->
                edge_rejected (elems (field d k_nodes)) e = false).
Proof.
  unfold rejects.
  intros [[[[Ho Hn]%orb_false_elim He]%orb_false_elim Hns]%orb_false_elim Hes]%orb_false_elim.
  apply negb_false_iff in Ho, Hn, He. repeat split; try done.
  - intros n Hin. destruct (node_rejected n) eqn:Hr; [|done].
    assert (existsb node_rejected (elems (field d k_nodes)) = true)
      by (apply existsb_exists; eauto). congruence.
  - intros e Hin. destruct (edge_rejected _ e) eqn:Hr; [|done].
    assert (existsb (edge_rejected (elems (field d k_nodes))) (elems (field d k_edges)) = true)
      by (apply existsb_exists; eauto). congruence.
Qed.

(** X2: acceptance asks nothing of the model as a whole beyond the edges
    finding their ends: it survives repeating a node or an edge (ids need
    not be unique), adding nodes that pass on their own, adding edges
    between the nodes there are (a self-loop or a parallel edge as well),
    reordering, and dropping edges. *)
Theorem validateDiagram_monotone (d d' : Value) :
  validateDiagram d = Normal true ->
  is_object d' = true ->
  isArray (field d' k_nodes) = true ->
  isArray (field d' k_edges) = true ->
  (forall n, In n (elems (field d k_nodes)) -> In n (elems (field d' k_nodes))) ->
  (forall n, In n (elems (field d' k_nodes)) ->
             In n (elems (field d k_nodes)) \/ node_rejected n = false) ->
  (forall e, In e (elems (field d' k_edges)) ->
             In e (elems (field d k_edges))
             \/ edge_rejected (elems (field d k_nodes)) e = false) ->
  validateDiagram d' = Normal true.
Proof.
  intros Hd Ho Hn He Hkeep Hnew Hedges.
  apply validateDiagram_true in Hd.
  destruct (rejects_false_inv _ Hd) as (_ & _ & _ & Hns & Hes).
  apply validateDiagram_true. unfold rejects. rewrite Ho, Hn, He. cbn [negb orb].
  apply orb_false_intro.
  - destruct (existsb node_rejected _) eqn:Hx; [|done].
    apply existsb_exists in Hx as (n & Hin & Hr).
    destruct (Hnew _ Hin) as [Hold|Hok]; [|congruence].
    by rewrite (Hns _ Hold) in Hr.
  - destruct (existsb (edge_rejected _) _) eqn:Hx; [|done].
    apply existsb_exists in Hx as (e & Hin & Hr).
    assert (Hok : edge_rejected (elems (field d k_nodes)) e = false)
      by (destruct (Hedges _ Hin) as [Hold|Hok]; [by apply Hes|done]).
    unfold edge_rejected in *.
    apply orb_false_elim in Hok as [[[[H1 H2]%orb_false_elim H3]%orb_false_elim
                                      H4]%orb_false_elim H5].
    rewrite H1, H2, H3 in Hr. cbn [orb] in Hr.
    apply negb_false_iff in H4, H5.
    by rewrite (is_node_id_mono _ _ _ Hkeep H4), (is_node_id_mono _ _ _ Hkeep H5) in Hr.
Qed.

Lemma validateDiagram_monotone_witness :
  validateDiagram two_node_diagram = Normal true
  /\ is_object repeated_node_diagram = true
  /\ isArray (field repeated_node_diagram k_nodes) = true
  /\ isArray (field repeated_node_diagram k_edges) = true
  /\ validateDiagram repeated_node_diagram = Normal true.
Proof.
  repeat (split; [reflexivity|]).
  apply (validateDiagram_monotone two_node_diagram repeated_node_diagram);
    try reflexivity.
  - intros n Hin. vm_compute in Hin. vm_compute.
    destruct Hin as [<-|[<-|[]]]; auto.
  - intros n Hin. vm_compute in Hin.
    destruct Hin as [<-|[<-|[<-|[]]]]; left; vm_compute; auto.
  - intros e Hin. vm_compute in Hin.
    destruct Hin as [<-|[]]. right. reflexivity.
Defined.

(* ===================================================================== *)
(** ** Further properties of the extractor *)
(* ===================================================================== *)

Lemma indexOf_block_present pre body post :
  indexOf (pre ++ startMarker ++ body ++ endMarker ++ post) startMarker <> -1
  /\ indexOf (pre ++ startMarker ++ body ++ endMarker ++ post) endMarker <> -1.
Proof.
  rewrite !indexOf_absent. split.
  - rewrite (index_of_None _ startMarker_nonempty). intros Hno. apply Hno.
    by exists pre, (body ++ endMarker ++ post).
  - rewrite (index_of_None _ endMarker_nonempty). intros Hno. apply Hno.
    exists (pre ++ startMarker ++ body), post. by rewrite <- !app_assoc.
Qed.

(** X3: whatever the extractor returns has gone through both steps: it is the
    value that [JSON.parse] made of the text between the markers, and the
    validator accepted it, so none of the grounds for rejection applies to
    it.  No text yields a diagram that was not validated. *)
Theorem extractDiagramFromResponse_validated
    (JSON_parse : list N -> Completion Value) (response : list N) (diagram : Value) :
  extractDiagramFromResponse JSON_parse response = Normal (Some diagram) ->
  indexOf response startMarker <> -1
  /\ indexOf response endMarker <> -1
  /\ JSON_parse (delimited_text response) = Normal diagram
  /\ validateDiagram diagram = Normal true
  /\ rejects diagram = false.
Proof.
  rewrite extract_unfold.
  destruct (indexOf response startMarker =? -1) eqn:Hs; [done|].
  destruct (indexOf response endMarker =? -1) eqn:He; [done|].
  cbn [orb]. apply Z.eqb_neq in Hs, He.
  destruct (JSON_parse _) as [v|e]; [|done].
  destruct (validateDiagram v) as [[|]|e] eqn:Hv; try done.
  intros [= <-]. repeat split; try done. by apply validateDiagram_true.
Qed.

Lemma extractDiagramFromResponse_validated_witness :
  extractDiagramFromResponse parse_two_node block_response
  = Normal (Some two_node_diagram)
  /\ validateDiagram two_node_diagram = Normal true
  /\ rejects two_node_diagram = false.
Proof.
  assert (H : extractDiagramFromResponse parse_two_node block_response
              = Normal (Some two_node_diagram)) by (vm_compute; reflexivity).
  split; [exact H|].
  exact (proj2 (proj2 (proj2
           (extractDiagramFromResponse_validated parse_two_node block_response
              two_node_diagram H)))).
Defined.

(** X4: the prose around the block plays no part: a text with a block, no
    start marker before it and no end marker before the one that closes
    it, gives what the block alone gives. *)
Theorem extractDiagramFromResponse_surroundings
    (JSON_parse : list N -> Completion Value) (pre body post : list N) :
  ~ occurs startMarker pre ->
  ~ occurs endMarker (pre ++ startMarker ++ body) ->
  extractDiagramFromResponse JSON_parse
    (pre ++ startMarker ++ body ++ endMarker ++ post)
  = extractDiagramFromResponse JSON_parse (startMarker ++ body ++ endMarker).
Proof.
  intros Hpre Hbody. rewrite !extract_unfold.
  rewrite (delimited_text_block pre body post Hpre Hbody).
  pose proof (delimited_text_block [] body []) as Hd.
  cbn [app] in Hd. rewrite app_nil_r in Hd. rewrite Hd.
  - destruct (indexOf_block_present pre body post) as [H1 H2].
    destruct (indexOf_block_present [] body []) as [H3 H4].
    cbn [app] in H3, H4. rewrite app_nil_r in H3, H4.
    apply Z.eqb_neq in H1, H2, H3, H4. by rewrite H1, H2, H3, H4.
  - apply (not_occurs_nil _ startMarker_nonempty).
  - intros Ho. apply Hbody. by apply occurs_app_r.
Qed.

Lemma extractDiagramFromResponse_surroundings_witness :
  ~ occurs startMarker (lit "Here it is: ")
  /\ ~ occurs endMarker (lit "Here it is: " ++ startMarker ++ two_node_json)
  /\ extractDiagramFromResponse parse_two_node block_response
     = extractDiagramFromResponse parse_two_node
         (startMarker ++ two_node_json ++ endMarker).
Proof.
  assert (H1 : ~ occurs startMarker (lit "Here it is: "))
    by (apply (index_of_None _ startMarker_nonempty); reflexivity).
  assert (H2 : ~ occurs endMarker (lit "Here it is: " ++ startMarker ++ two_node_json))
    by (apply (index_of_None _ endMarker_nonempty); vm_compute; reflexivity).
  split; [exact H1|]. split; [exact H2|].
  exact (extractDiagramFromResponse_surroundings parse_two_node
           (lit "Here it is: ") two_node_json (lit " Done. ") H1 H2).
Defined.

(* ===================================================================== *)
(** ** Further properties of the display text *)
(* ===================================================================== *)

Local Open Scope nat_scope.

Lemma trim_start_split s :
  exists sp, s = sp ++ trim_start s /\ forallb is_space sp = true.
Proof.
  induction s as [|c s (sp & Hs & Hsp)]; [by exists []|].
  cbn [trim_start]. destruct (is_space c) eqn:Hc.
  - exists (c :: sp). cbn [app forallb]. rewrite Hc, Hsp. split; [by f_equal|done].
  - by exists [].
Qed.

Lemma trim_start_head s :
  match trim_start s with c :: _ => is_space c = false | [] => True end.
Proof.
  induction s as [|c s IH]; [done|]. cbn [trim_start].
  by destruct (is_space c) eqn:Hc.
Qed.

Lemma trim_start_id s :
  match s with c :: _ => is_space c = false | [] => True end -> trim_start s = s.
Proof. destruct s as [|c s]; [done|]. cbn [trim_start]. by intros ->. Qed.

Lemma trim_start_app c t r :
  is_space c = false -> trim_start (t ++ c :: r) = trim_start t ++ c :: r.
Proof.
  intros Hc. induction t as [|d t IH]; cbn [app trim_start]; [by rewrite Hc|].
  by destruct (is_space d).
Qed.

Lemma trim_end_cons c u :
  is_space c = false -> trim_end (c :: u) = c :: trim_end u.
Proof.
  intros Hc. unfold trim_end. cbn [rev].
  rewrite (trim_start_app _ _ _ Hc), rev_app_distr. done.
Qed.

Lemma trim_end_split s : exists sp, s = trim_end s ++ sp.
Proof.
  unfold trim_end. destruct (trim_start_split (rev s)) as (sp & Hs & _).
  exists (rev sp). rewrite <- rev_app_distr, <- Hs. by rewrite rev_involutive.
Qed.

(** The trimmed text is a stretch of the text. *)
Lemma trim_segment s : exists a b, s = a ++ trim s ++ b.
Proof.
  unfold trim. destruct (trim_start_split s) as (a & Hs & _).
  destruct (trim_end_split (trim_start s)) as (b & Hb).
  exists a, b. by rewrite <- Hb.
Qed.

Lemma trim_head s :
  match trim s with c :: _ => is_space c = false | [] => True end.
Proof.
  unfold trim. pose proof (trim_start_head s) as Hu.
  destruct (trim_start s) as [|c u]; [done|].
  by rewrite (trim_end_cons _ _ Hu).
Qed.

Lemma trim_last s :
  match rev (trim s) with c :: _ => is_space c = false | [] => True end.
Proof.
  unfold trim, trim_end. rewrite rev_involutive. apply trim_start_head.
Qed.

Lemma trim_idem s : trim (trim s) = trim s.
Proof.
  unfold trim at 1. rewrite (trim_start_id _ (trim_head s)).
  unfold trim_end. rewrite (trim_start_id _ (trim_last s)).
  apply rev_involutive.
Qed.

Lemma has_block_trim s : has_block (trim s) -> has_block s.
Proof.
  intros (pre & body & post & Heq).
  destruct (trim_segment s) as (a & b & Hs).
  exists (a ++ pre), body, (post ++ b).
  rewrite Hs at 1. rewrite Heq. by rewrite <- !app_assoc.
Qed.

Lemma lookup_mid (a m b : list N) k :
  k < length m -> (a ++ m ++ b) !! (length a + k) = m !! k.
Proof.
  intros Hk. rewrite lookup_app_r by lia.
  replace (length a + k - length a) with k by lia.
  by rewrite lookup_app_l.
Qed.

Lemma lookup_not_elem (l : list N) c k : c ∉ l -> l !! k <> Some c.
Proof. intros Hc Hk. apply Hc. by apply list_elem_of_lookup_2 in Hk. Qed.

(** A start marker in a text that has the placeholder in it lies wholly
    before the placeholder or wholly after it. *)
Lemma placeholder_no_start pre out a b :
  pre ++ placeholder ++ out = a ++ startMarker ++ b ->
  (exists t, pre = a ++ startMarker ++ t) \/ (exists t, out = t ++ startMarker ++ b).
Proof.
  intros Heq.
  assert (F1 : forall k, k < 15 ->
             (pre ++ placeholder ++ out) !! (length a + k) = startMarker !! k).
  { intros k Hk. rewrite Heq. by apply lookup_mid. }
  assert (F2 : forall j, j < 19 ->
             (pre ++ placeholder ++ out) !! (length pre + j) = placeholder !! j).
  { intros j Hj. by apply lookup_mid. }
  destruct (decide (length a + 15 <= length pre)) as [Hbefore|Hbefore].
  { left. rewrite (app_assoc a) in Heq.
    apply app_eq_inv in Heq as [(k & Hk & _)|(k & Hk & _)].
    - exists k. by rewrite Hk, <- app_assoc.
    - exists []. apply (f_equal length) in Hk as Hlen.
      rewrite !length_app in Hlen. change (length startMarker) with 15 in Hlen.
      destruct k; [|cbn [length] in Hlen; lia].
      rewrite app_nil_r in *. done. }
  destruct (decide (length pre + 19 <= length a)) as [Hafter|Hafter].
  { right. rewrite (app_assoc pre) in Heq.
    apply app_eq_inv in Heq as [(k & Hk & Hout)|(k & _ & Hk)].
    - exists []. apply (f_equal length) in Hk as Hlen.
      rewrite !length_app in Hlen. change (length placeholder) with 19 in Hlen.
      destruct k; [|cbn [length] in Hlen; lia].
      cbn [app] in *. done.
    - by exists k. }
  exfalso.
  destruct (decide (length a + 14 <= length pre + 1)) as [Hi|Hi].
  { pose proof (F1 14 ltac:(lia)) as H1.
    assert (Hj : length a + 14 = length pre + 0 \/ length a + 14 = length pre + 1) by lia.
    destruct Hj as [Hj|Hj]; rewrite Hj, F2 in H1 by lia; vm_compute in H1; discriminate H1. }
  destruct (decide (length pre + 18 <= length a)) as [Hii|Hii].
  { pose proof (F1 0 ltac:(lia)) as H1.
    replace (length a + 0) with (length pre + 18) in H1 by lia.
    rewrite F2 in H1 by lia. vm_compute in H1. discriminate H1. }
  destruct (decide (length a <= length pre + 2)) as [Hiii|Hiii].
  { pose proof (F2 2 ltac:(lia)) as H2.
    replace (length pre + 2) with (length a + (length pre + 2 - length a)) in H2 by lia.
    rewrite F1 in H2 by lia.
    revert H2. change (placeholder !! 2) with (Some 105%N).
    apply lookup_not_elem. not_in_literal. }
  pose proof (F1 0 ltac:(lia)) as H1.
  replace (length a + 0) with (length pre + S (length a - length pre - 1)) in H1 by lia.
  rewrite F2 in H1 by lia.
  revert H1. change (startMarker !! 0) with (Some 91%N).
  change placeholder with (91%N :: tl placeholder). cbn [lookup list_lookup].
  apply lookup_not_elem. not_in_literal.
Qed.

Lemma no_block_after pre out :
  ~ occurs startMarker pre -> ~ has_block out -> ~ has_block (pre ++ placeholder ++ out).
Proof.
  intros Hpre Hout (a & body & post & Heq).
  apply placeholder_no_start in Heq as [(t & Ht)|(t & Ht)].
  - apply Hpre. by exists a, t.
  - apply Hout. by exists t, body, post.
Qed.

Lemma Stripped_no_block s out : Stripped s out -> ~ has_block out.
Proof.
  induction 1 as [s Hno|pre body post out Hpre Hbody Hpost IH]; [done|].
  by apply no_block_after.
Qed.

Lemma Stripped_length s out : Stripped s out -> length out <= length s.
Proof.
  induction 1 as [s Hno|pre body post out Hpre Hbody Hpost IH]; [done|].
  rewrite !length_app.
  change (length placeholder) with 19. change (length startMarker) with 15.
  change (length endMarker) with 13. lia.
Qed.

Lemma trim_length s : length (trim s) <= length s.
Proof.
  destruct (trim_segment s) as (a & b & Hs). rewrite Hs at 2.
  rewrite !length_app. lia.
Qed.

(** X5: what is shown never holds a whole block any more, and hiding blocks a
    second time changes nothing. *)
Theorem stripDiagramMarkers_idempotent (response : list N) :
  ~ has_block (stripDiagramMarkers response)
  /\ block_exec (stripDiagramMarkers response) = None
  /\ stripDiagramMarkers (stripDiagramMarkers response) = stripDiagramMarkers response.
Proof.
  assert (Hno : ~ has_block (stripDiagramMarkers response)).
  { unfold stripDiagramMarkers. intros H%has_block_trim.
    by apply (Stripped_no_block response _
                (replace_blocks_Stripped (length response) response (le_n _))). }
  split; [exact Hno|]. split; [by apply block_exec_None|].
  unfold stripDiagramMarkers at 1.
  rewrite replace_blocks_None by (by apply block_exec_None).
  unfold stripDiagramMarkers. apply trim_idem.
Qed.

(** X6: what is shown has no white space at either end and is never longer
    than the text it comes from. *)
Theorem stripDiagramMarkers_trimmed (response : list N) :
  match stripDiagramMarkers response with
  | c :: _ => is_space c = false
  | [] => True
  end
  /\ match rev (stripDiagramMarkers response) with
     | c :: _ => is_space c = false
     | [] => True
     end
  /\ length (stripDiagramMarkers response) <= length response.
Proof.
  unfold stripDiagramMarkers. split; [apply trim_head|]. split; [apply trim_last|].
  etransitivity; [apply trim_length|].
  apply Stripped_length. by apply replace_blocks_Stripped.
Qed.

(* ===================================================================== *)
(** ** Further properties of the shapes and of the layout *)
(* ===================================================================== *)

Lemma str_eqb_neq a b : str_eqb a b = false <-> a <> b.
Proof.
  rewrite <- str_eqb_eq. by destruct (str_eqb a b).
Qed.

(** X7: the kind and the colour of a node by its type, for every string: a
    diamond for [decision] only, an ellipse for [start] and [end] only, a
    trapezoid for [data] only, and a rectangle for every other string, a
    type outside the enumeration included; green for [start], red for
    [end], blue for everything else, so that the coloured shapes are
    ellipses. *)
Theorem getGeoTypeForNode_cases (nodeType : list N) :
  (getGeoTypeForNode nodeType = diamond <-> nodeType = lit "decision")
  /\ (getGeoTypeForNode nodeType = ellipse
      <-> nodeType = lit "start" \/ nodeType = lit "end")
  /\ (getGeoTypeForNode nodeType = trapezoid <-> nodeType = lit "data")
  /\ (getGeoTypeForNode nodeType = rectangle
      <-> nodeType <> lit "decision" /\ nodeType <> lit "start"
          /\ nodeType <> lit "end" /\ nodeType <> lit "data")
  /\ (color_of nodeType = green <-> nodeType = lit "start")
  /\ (color_of nodeType = red <-> nodeType = lit "end")
  /\ (color_of nodeType <> blue -> getGeoTypeForNode nodeType = ellipse).
Proof.
  unfold getGeoTypeForNode, color_of.
  destruct (str_eqb nodeType (lit "decision")) eqn:H1;
    [apply str_eqb_eq in H1; subst; repeat split; try done; try tauto;
     intros H; by (destruct H as [H|H] || destruct H as (H & _)) |].
  destruct (str_eqb nodeType (lit "start")) eqn:H2;
    [apply str_eqb_eq in H2; subst; repeat split; try done; try tauto;
     intros H; by destruct H as (_ & H & _) |].
  destruct (str_eqb nodeType (lit "end")) eqn:H3;
    [apply str_eqb_eq in H3; subst; repeat split; try done; try tauto;
     intros H; by destruct H as (_ & _ & H & _) |].
  destruct (str_eqb nodeType (lit "data")) eqn:H4;
    [apply str_eqb_eq in H4; subst; repeat split; try done; try tauto;
     intros H; by (destruct H as [H|H] || destruct H as (_ & _ & _ & H)) |].
  apply str_eqb_neq in H1, H2, H3, H4.
  repeat split; try done; try tauto.
Qed.

Lemma getGeoTypeForNode_cases_witness :
  color_of (lit "start") <> blue /\ getGeoTypeForNode (lit "start") = ellipse.
Proof.
  assert (H : color_of (lit "start") <> blue) by discriminate.
  split; [exact H|].
  exact (proj2 (proj2 (proj2 (proj2 (proj2 (proj2
           (getGeoTypeForNode_cases (lit "start"))))))) H).
Defined.

(** X8: the layout only adds geometry: forgetting it gives back the nodes of
    the model, in their order, the edges are those of the model, and every
    node has the one box size of the options, 180 by 80 when none is
    given. *)
Theorem getAutoLayout_preserves
    (dagre_layout : DagreGraph -> list N -> float * float)
    (graphModel : GraphModel) (options : option LayoutOptions) :
  map base (layout_nodes (getAutoLayout dagre_layout graphModel options))
  = nodes graphModel
  /\ layout_edges (getAutoLayout dagre_layout graphModel options) = edges graphModel
  /\ Forall (fun p => width p = nodeWidth_of options /\ height p = nodeHeight_of options)
            (layout_nodes (getAutoLayout dagre_layout graphModel options))
  /\ nodeWidth_of None = 180%float /\ nodeHeight_of None = 80%float
  /\ nodeWidth_of (Some no_options) = 180%float /\ nodeHeight_of (Some no_options) = 80%float.
Proof.
  rewrite getAutoLayout_eq. cbn [layout_nodes layout_edges].
  split; [|split; [done|split; [|done]]].
  - rewrite map_map. cbn [place base]. apply map_id.
  - apply Forall_forall. intros p Hp%list_elem_of_In.
    apply in_map_iff in Hp as (n & <- & _). done.
Qed.

Lemma layout_nodes_In dagre_layout graphModel options p :
  In p (layout_nodes (getAutoLayout dagre_layout graphModel options)) ->
  In (base p) (nodes graphModel)
  /\ p = place options
           (dagre_layout (dagre_input graphModel options) (node_id (base p)))
           (base p).
Proof.
  rewrite getAutoLayout_eq. cbn [layout_nodes].
  intros (n & <- & Hin)%in_map_iff. done.
Qed.

(** X9: the place of a node is that of its id: two nodes of the model that
    bear the same id come out with the same box, one on top of the
    other. *)
Theorem getAutoLayout_same_id
    (dagre_layout : DagreGraph -> list N -> float * float)
    (graphModel : GraphModel) (options : option LayoutOptions)
    (p1 p2 : PositionedNode) :
  In p1 (layout_nodes (getAutoLayout dagre_layout graphModel options)) ->
  In p2 (layout_nodes (getAutoLayout dagre_layout graphModel options)) ->
  node_id (base p1) = node_id (base p2) ->
  x p1 = x p2 /\ y p1 = y p2 /\ width p1 = width p2 /\ height p1 = height p2.
Proof.
  intros [_ H1]%layout_nodes_In [_ H2]%layout_nodes_In Hid.
  rewrite H1, H2, Hid. done.
Qed.

Lemma getAutoLayout_same_id_witness :
  exists p1 p2,
    In p1 (layout_nodes (getAutoLayout engine_nodes twin_model None))
    /\ In p2 (layout_nodes (getAutoLayout engine_nodes twin_model None))
    /\ node_id (base p1) = node_id (base p2)
    /\ node_label (base p1) <> node_label (base p2)
    /\ x p1 = x p2 /\ y p1 = y p2 /\ width p1 = width p2 /\ height p1 = height p2.
Proof.
  eexists _, _.
  assert (H1 : In (place None (engine_nodes (dagre_input twin_model None) (lit "1"))
                         (graph_node "1" "A" "start"))
                  (layout_nodes (getAutoLayout engine_nodes twin_model None)))
    by (left; reflexivity).
  assert (H2 : In (place None (engine_nodes (dagre_input twin_model None) (lit "1"))
                         (graph_node "1" "B" "end"))
                  (layout_nodes (getAutoLayout engine_nodes twin_model None)))
    by (right; left; reflexivity).
  split; [exact H1|]. split; [exact H2|]. split; [reflexivity|].
  split; [discriminate|].
  exact (getAutoLayout_same_id engine_nodes twin_model None _ _ H1 H2 eq_refl).
Defined.

Local Open Scope nat_scope.

Lemma connector_count layout wd (es : list GraphEdge) :
  length (omap (connector layout (id_map layout wd)) es)
  = length (filter (fun e => resolves (id_map layout wd) e = true) es).
Proof.
  induction es as [|e es IH]; [done|]. cbn [omap list_omap].
  destruct (resolves (id_map layout wd) e) eqn:Hr.
  - destruct (connector_resolves _ _ _ Hr) as (s & t & _ & _ & ->).
    rewrite filter_cons_True by done. cbn [length]. by f_equal.
  - rewrite (proj2 (connector_None layout wd e) Hr).
    rewrite filter_cons_False by (rewrite Hr; done). exact IH.
Qed.

Lemma generateTldrawShapes_next_id layout wd :
  next_id (generateTldrawShapes layout wd)
  = next_id wd + length (layout_nodes layout)
    + length (omap (connector layout (id_map layout wd)) (layout_edges layout)).
Proof.
  unfold generateTldrawShapes, id_map.
  pose proof (node_loop (layout_nodes layout) ∅ wd) as Hn.
  destruct (fold_left node_step _ _) as [m wd1]. cbn [fst snd] in *. subst wd1.
  rewrite edge_loop. done.
Qed.

(** X10: the size of the batch: the shapes made are as many as the nodes plus
    the edges of which both ends resolve, never more arrows than edges,
    and a shape id is drawn for each shape made and for nothing else. *)
Theorem generateTldrawShapes_count (layout : LayoutResult) (wd : World) :
  length (created (generateTldrawShapes layout wd))
  = length (created wd) + length (layout_nodes layout)
    + length (filter (fun e => resolves (id_map layout wd) e = true)
                     (layout_edges layout))
  /\ length (created (generateTldrawShapes layout wd))
     <= length (created wd) + length (layout_nodes layout)
        + length (layout_edges layout)
  /\ next_id (generateTldrawShapes layout wd) - next_id wd
     = length (created (generateTldrawShapes layout wd)) - length (created wd).
Proof.
  rewrite generateTldrawShapes_next_id, generateTldrawShapes_created.
  rewrite !length_app, !length_imap, connector_count.
  pose proof (length_filter (fun e => resolves (id_map layout wd) e = true)
                (layout_edges layout)).
  repeat split; lia.
Qed.

Lemma layout_resolves dagre_layout graphModel options wd e :
  In (source e) (node_ids graphModel) ->
  In (target e) (node_ids graphModel) ->
  resolves (id_map (getAutoLayout dagre_layout graphModel options) wd) e = true.
Proof.
  intros Hs Ht. apply resolves_iff.
  assert (Hid : forall k, In k (node_ids graphModel) ->
            exists p, In p (layout_nodes (getAutoLayout dagre_layout graphModel options))
                      /\ node_id (base p) = k).
  { intros k (n & <- & Hin)%in_map_iff. rewrite getAutoLayout_eq. cbn [layout_nodes].
    eexists. split; [apply in_map_iff; by exists n|done]. }
  split; by apply Hid.
Qed.

(** X11: in the pipeline of the page, layout then shapes: when every edge of
    the model starts and ends at the id of one of its nodes, which is what
    the validator checks, every edge resolves and the batch has one shape
    per node and one arrow per edge; no edge is dropped. *)
Theorem pipeline_draws_every_edge
    (dagre_layout : DagreGraph -> list N -> float * float)
    (graphModel : GraphModel) (options : option LayoutOptions) (wd : World) :
  edges_closed graphModel ->
  (forall e, In e (edges graphModel) ->
     resolves (id_map (getAutoLayout dagre_layout graphModel options) wd) e = true)
  /\ length (created (generateTldrawShapes
                        (getAutoLayout dagre_layout graphModel options) wd))
     = length (created wd) + length (nodes graphModel) + length (edges graphModel).
Proof.
  intros Hclosed.
  assert (Hres : forall e, In e (edges graphModel) ->
     resolves (id_map (getAutoLayout dagre_layout graphModel options) wd) e = true).
  { intros e Hin. destruct (Hclosed e Hin). by apply layout_resolves. }
  split; [exact Hres|].
  rewrite generateTldrawShapes_created, !length_app, !length_imap, connector_count.
  rewrite getAutoLayout_eq. cbn [layout_nodes layout_edges]. rewrite length_map.
  rewrite <- getAutoLayout_eq.
  assert (Hall : forall es, (forall e, In e es -> In e (edges graphModel)) ->
            length (filter (fun e => resolves
                       (id_map (getAutoLayout dagre_layout graphModel options) wd) e
                       = true) es) = length es).
  { induction es as [|e es IH]; [done|]. intros Hsub.
    rewrite filter_cons_True by (apply Hres, Hsub; by left).
    cbn [length]. f_equal. apply IH. intros e' He'. apply Hsub. by right. }
  rewrite Hall by done. lia.
Qed.

Lemma mockFlowchart_closed : edges_closed mockFlowchart.
Proof.
  intros e Hin. cbn [mockFlowchart edges] in Hin.
  repeat (destruct Hin as [<-|Hin]; [split; vm_compute; tauto|]).
  destruct Hin.
Defined.

Lemma pipeline_draws_every_edge_witness :
  edges_closed mockFlowchart
  /\ length (created (generateTldrawShapes
                        (getAutoLayout engine_fixed mockFlowchart None) world0))
     = 0 + 6 + 5.
Proof.
  split; [exact mockFlowchart_closed|].
  exact (proj2 (pipeline_draws_every_edge engine_fixed mockFlowchart None world0
                  mockFlowchart_closed)).
Defined.

Lemma connector_in_batch layout wd e c :
  In e (layout_edges layout) ->
  connector layout (id_map layout wd) e = Some c ->
  exists id, In (arrow_shape id c) (created (generateTldrawShapes layout wd)).
Proof.
  intros Hin Hc.
  assert (Hel : c ∈ omap (connector layout (id_map layout wd)) (layout_edges layout)).
  { apply list_elem_of_omap. exists e. split; [by apply list_elem_of_In|done]. }
  apply list_elem_of_lookup in Hel as [i Hi].
  exists (next_id wd + length (layout_nodes layout) + i).
  rewrite generateTldrawShapes_created. apply in_or_app. right.
  apply in_or_app. right. apply list_elem_of_In.
  apply (elem_of_lookup_imap_2
           (fun i c => arrow_shape (next_id wd + length (layout_nodes layout) + i) c)
           _ _ i Hi).
Qed.

Lemma find_node_layout dagre_layout graphModel options k s :
  find_node (getAutoLayout dagre_layout graphModel options) k = Some s ->
  s = place options (dagre_layout (dagre_input graphModel options) k) (base s).
Proof.
  unfold find_node. intros [Hin Hk]%find_some.
  apply str_eqb_eq in Hk. apply layout_nodes_In in Hin as [_ Hs].
  by rewrite Hk in Hs.
Qed.

(** X12: in the pipeline, in terms of the centres the engine computes and
    in double arithmetic: with [(cx, cy)] the centre of the source id and
    [(cx', cy')] that of the target id, the arrow of an edge starts at
    [((cx - w/2) + w/2, (cy - h/2) + h)] and ends at
    [((cx' - w/2) + w/2, cy' - h/2)], the middle of the bottom face and the
    middle of the top face, whatever the direction of the layout; it bears
    the label of the edge, or the empty text. *)
Theorem pipeline_connector_geometry
    (dagre_layout : DagreGraph -> list N -> float * float)
    (graphModel : GraphModel) (options : option LayoutOptions) (wd : World)
    (e : GraphEdge) :
  In e (edges graphModel) ->
  In (source e) (node_ids graphModel) ->
  In (target e) (node_ids graphModel) ->
  exists id st en,
    In (ArrowShape id 0 0 st en (label_or_empty (edge_label e)))
       (created (generateTldrawShapes
                   (getAutoLayout dagre_layout graphModel options) wd))
    /\ pt_x st
       = (fst (dagre_layout (dagre_input graphModel options) (source e))
          - nodeWidth_of options / 2 + nodeWidth_of options / 2)%float
    /\ pt_y st
       = (snd (dagre_layout (dagre_input graphModel options) (source e))
          - nodeHeight_of options / 2 + nodeHeight_of options)%float
    /\ pt_x en
       = (fst (dagre_layout (dagre_input graphModel options) (target e))
          - nodeWidth_of options / 2 + nodeWidth_of options / 2)%float
    /\ pt_y en
       = (snd (dagre_layout (dagre_input graphModel options) (target e))
          - nodeHeight_of options / 2)%float.
Proof.
  intros Hin Hs Ht.
  pose proof (layout_resolves dagre_layout graphModel options wd e Hs Ht) as Hr.
  destruct (connector_resolves _ _ _ Hr) as (s & t & Hfs & Hft & Hc).
  destruct (connector_in_batch (getAutoLayout dagre_layout graphModel options)
              wd e _ Hin Hc) as (id & Hid).
  exists id, (bottom_center s), (top_center t). split; [exact Hid|].
  apply find_node_layout in Hfs, Hft. rewrite Hfs, Hft.
  cbn [bottom_center top_center place pt_x pt_y x y width height].
  repeat split.
Qed.

Lemma pipeline_connector_geometry_witness :
  In (labelled_edge "e3" "3" "4" "Yes") (edges mockFlowchart)
  /\ In (lit "3") (node_ids mockFlowchart)
  /\ In (lit "4") (node_ids mockFlowchart)
  /\ exists id st en,
      In (ArrowShape id 0 0 st en (lit "Yes"))
         (created (generateTldrawShapes
                     (getAutoLayout engine_fixed mockFlowchart None) world0))
      /\ pt_x st = (90 - 180 / 2 + 180 / 2)%float
      /\ pt_y st = (40 - 80 / 2 + 80)%float
      /\ pt_x en = (90 - 180 / 2 + 180 / 2)%float
      /\ pt_y en = (40 - 80 / 2)%float.
Proof.
  assert (H1 : In (labelled_edge "e3" "3" "4" "Yes") (edges mockFlowchart))
    by (right; right; left; reflexivity).
  assert (H2 : In (lit "3") (node_ids mockFlowchart)) by (vm_compute; tauto).
  assert (H3 : In (lit "4") (node_ids mockFlowchart)) by (vm_compute; tauto).
  split; [exact H1|]. split; [exact H2|]. split; [exact H3|].
  exact (pipeline_connector_geometry engine_fixed mockFlowchart None world0
           (labelled_edge "e3" "3" "4" "Yes") H1 H2 H3).
Defined.

(* ===================================================================== *)
(** ** The chat hook *)
(* ===================================================================== *)

Section ChatHook.

Import ChatAPI.

Variable JSON_parse : list N -> Completion Value.
Variable PROMPT : list N.
Variable number_to_string : Z -> list N.
Variable other_to_string : Value -> list N.
Variable type_error_message : Value -> list N -> list N.

Local Abbreviation send :=
  (sendMessage JSON_parse PROMPT number_to_string other_to_string type_error_message).
Local Abbreviation answer :=
  (reply JSON_parse number_to_string other_to_string type_error_message).

Lemma extract_Some_inv response diagram :
  extractDiagramFromResponse JSON_parse response = Normal (Some diagram) ->
  indexOf response startMarker <> (-1)%Z
  /\ indexOf response endMarker <> (-1)%Z
  /\ JSON_parse (delimited_text response) = Normal diagram
  /\ validateDiagram diagram = Normal true.
Proof.
  rewrite extract_unfold.
  destruct (indexOf response startMarker =? -1)%Z eqn:Hs; [done|].
  destruct (indexOf response endMarker =? -1)%Z eqn:He; [done|].
  cbn [orb]. apply Z.eqb_neq in Hs, He.
  destruct (JSON_parse _) as [v|e]; [|done].
  destruct (validateDiagram v) as [[|]|e] eqn:Hv; try done.
  by intros [= <-].
Qed.

Lemma reply_Done env msg :
  answer env = Done msg ->
  role msg = assistant
  /\ (forall d, diagramData msg = Some d -> validateDiagram d = Normal true).
Proof.
  unfold reply. destruct (fetch_outcome env) as [err|ok json]; [done|].
  destruct ok; cbn [negb].
  - destruct json as [data|t]; [|done]. cbn [and_then].
    destruct (member _ data _) as [choices|t]; [|done]. cbn [and_then].
    destruct (index0 _ choices) as [first|t]; [|done]. cbn [and_then].
    set (c := or_else _ _).
    destruct (extract_content JSON_parse type_error_message c) as [r|t] eqn:Hx; [|done].
    cbn [and_then]. intros [= <-]. cbn [role diagramData]. split; [done|].
    intros d ->. unfold extract_content in Hx.
    destruct c as [| | | |s| |]; try done.
    destruct (extractDiagramFromResponse JSON_parse s) as [r|] eqn:He; [|done].
    injection Hx as ->. by apply extract_Some_inv in He as (_ & _ & _ & Hv).
  - destruct json as [errorData|t]; [|done]. cbn [and_then].
    by destruct (member _ errorData _).
Qed.

(** X13: a request goes out exactly when the key is configured and the message
    is not blank.  Otherwise the messages and the loading flag stay as
    they were: a blank message changes nothing at all, a missing key sets
    the error. *)
Theorem sendMessage_guards
    (history : list ChatMessage) (env : Env) (userMessage : list N) (st : ChatState) :
  (snd (send history env userMessage st) = None
   <-> apiKey env = [] \/ trim userMessage = [])
  /\ (snd (send history env userMessage st) = None ->
      messages (fst (send history env userMessage st)) = messages st
      /\ isLoading (fst (send history env userMessage st)) = isLoading st)
  /\ (apiKey env <> [] -> trim userMessage = [] ->
      fst (send history env userMessage st) = st)
  /\ (apiKey env = [] ->
      error (fst (send history env userMessage st))
      = Some (lit "OpenAI API key not configured")).
Proof.
  unfold sendMessage.
  destruct (apiKey env) as [|c k]; cbn [validateOpenAIConfig negb].
  - repeat split; try done. by left.
  - destruct (trim userMessage) as [|c' t] eqn:Ht.
    + repeat split; try done. by right.
    + repeat split; try done. by intros [|].
Qed.

(** X14: a turn: with a key and a message that is not blank, the call adds
    exactly two messages, the user's with the text as typed and then one
    from the assistant, whatever the network does; it leaves the loading
    flag down; and the request holds the system prompt first, the history
    in order, and the user's text last. *)
Theorem sendMessage_turn
    (history : list ChatMessage) (env : Env) (userMessage : list N) (st : ChatState) :
  apiKey env <> [] ->
  trim userMessage <> [] ->
  exists userMsg replyMsg,
    messages (fst (send history env userMessage st))
    = messages st ++ [userMsg; replyMsg]
    /\ role userMsg = user
    /\ content userMsg = VStr userMessage
    /\ diagramData userMsg = None
    /\ role replyMsg = assistant
    /\ isLoading (fst (send history env userMessage st)) = false
    /\ snd (send history env userMessage st)
       = Some ({| api_role := system; api_content := VStr PROMPT |}
               :: map (fun m => {| api_role := role m; api_content := content m |})
                      history
               ++ [{| api_role := user; api_content := VStr userMessage |}]).
Proof.
  intros Hkey Hmsg. unfold sendMessage.
  destruct (apiKey env) as [|c k]; [done|]. cbn [validateOpenAIConfig negb].
  destruct (trim userMessage) as [|c' t]; [done|].
  destruct (answer env) as [msg|err] eqn:Hr.
  - eexists _, msg. cbn. rewrite <- app_assoc. repeat split.
    by apply reply_Done in Hr as [? _].
  - eexists _, _. cbn. rewrite <- app_assoc. repeat split.
Qed.

(** X15: how a turn ends: either the error is cleared and the reply is the
    assistant's, and a diagram attached to it is one the validator
    accepted; or the error is set and the reply is the apology with that
    error in it, without a diagram. *)
Theorem sendMessage_outcome
    (history : list ChatMessage) (env : Env) (userMessage : list N) (st : ChatState) :
  apiKey env <> [] ->
  trim userMessage <> [] ->
  exists userMsg replyMsg,
    messages (fst (send history env userMessage st))
    = messages st ++ [userMsg; replyMsg]
    /\ ((error (fst (send history env userMessage st)) = None
         /\ answer env = Done replyMsg
         /\ forall d, diagramData replyMsg = Some d -> validateDiagram d = Normal true)
        \/ (exists m,
              error (fst (send history env userMessage st)) = Some m
              /\ content replyMsg
                 = VStr (lit "Sorry, I encountered an error: " ++ m)
              /\ diagramData replyMsg = None)).
Proof.
  intros Hkey Hmsg. unfold sendMessage.
  destruct (apiKey env) as [|c k]; [done|]. cbn [validateOpenAIConfig negb].
  destruct (trim userMessage) as [|c' t]; [done|].
  destruct (answer env) as [msg|err] eqn:Hr.
  - eexists _, msg. cbn. rewrite <- app_assoc. split; [done|]. left.
    split; [done|]. split; [done|]. by apply reply_Done in Hr as [_ ?].
  - eexists _, _. cbn. rewrite <- app_assoc. split; [done|]. right.
    eexists. repeat split.
Qed.

End ChatHook.

Lemma sendMessage_guards_witness :
  trim (lit "   ") = []
  /\ ChatAPI.apiKey env_ok <> []
  /\ fst (ChatAPI.sendMessage parse_two_node (lit "prompt") show_number show_other
             show_type_error [] env_ok (lit "   ") idle) = idle.
Proof.
  assert (H1 : trim (lit "   ") = []) by reflexivity.
  assert (H2 : ChatAPI.apiKey env_ok <> []) by discriminate.
  split; [exact H1|]. split; [exact H2|].
  exact (proj1 (proj2 (proj2
           (sendMessage_guards parse_two_node (lit "prompt") show_number show_other
              show_type_error [] env_ok (lit "   ") idle))) H2 H1).
Defined.

Lemma sendMessage_turn_witness :
  ChatAPI.apiKey env_failed <> []
  /\ trim (lit "Draw a login flow") <> []
  /\ exists userMsg replyMsg,
      ChatAPI.messages
        (fst (ChatAPI.sendMessage parse_two_node (lit "prompt") show_number
                show_other show_type_error [] env_failed
                (lit "Draw a login flow") idle))
      = ChatAPI.messages idle ++ [userMsg; replyMsg]
      /\ ChatAPI.role userMsg = ChatAPI.user
      /\ ChatAPI.content userMsg = VStr (lit "Draw a login flow")
      /\ ChatAPI.diagramData userMsg = None
      /\ ChatAPI.role replyMsg = ChatAPI.assistant
      /\ ChatAPI.isLoading
           (fst (ChatAPI.sendMessage parse_two_node (lit "prompt") show_number
                   show_other show_type_error [] env_failed
                   (lit "Draw a login flow") idle)) = false
      /\ snd (ChatAPI.sendMessage parse_two_node (lit "prompt") show_number
                show_other show_type_error [] env_failed
                (lit "Draw a login flow") idle)
         = Some ({| ChatAPI.api_role := ChatAPI.system;
                    ChatAPI.api_content := VStr (lit "prompt") |}
                 :: map (fun m => {| ChatAPI.api_role := ChatAPI.role m;
                                     ChatAPI.api_content := ChatAPI.content m |}) []
                 ++ [{| ChatAPI.api_role := ChatAPI.user;
                        ChatAPI.api_content := VStr (lit "Draw a login flow") |}]).
Proof.
  assert (H1 : ChatAPI.apiKey env_failed <> []) by discriminate.
  assert (H2 : trim (lit "Draw a login flow") <> []) by (vm_compute; discriminate).
  split; [exact H1|]. split; [exact H2|].
  exact (sendMessage_turn parse_two_node (lit "prompt") show_number show_other
           show_type_error [] env_failed (lit "Draw a login flow") idle H1 H2).
Defined.

Lemma sendMessage_outcome_witness :
  ChatAPI.apiKey env_ok <> []
  /\ trim (lit "Draw a login flow") <> []
  /\ exists userMsg replyMsg,
      ChatAPI.messages
        (fst (ChatAPI.sendMessage parse_two_node (lit "prompt") show_number
                show_other show_type_error [] env_ok
                (lit "Draw a login flow") idle))
      = ChatAPI.messages idle ++ [userMsg; replyMsg]
      /\ ((ChatAPI.error
             (fst (ChatAPI.sendMessage parse_two_node (lit "prompt") show_number
                     show_other show_type_error [] env_ok
                     (lit "Draw a login flow") idle)) = None
           /\ ChatAPI.reply parse_two_node show_number show_other show_type_error
                env_ok = ChatAPI.Done replyMsg
           /\ forall d, ChatAPI.diagramData replyMsg = Some d ->
                        validateDiagram d = Normal true)
          \/ (exists m,
                ChatAPI.error
                  (fst (ChatAPI.sendMessage parse_two_node (lit "prompt") show_number
                          show_other show_type_error [] env_ok
                          (lit "Draw a login flow") idle)) = Some m
                /\ ChatAPI.content replyMsg
                   = VStr (lit "Sorry, I encountered an error: " ++ m)
                /\ ChatAPI.diagramData replyMsg = None)).
Proof.
  assert (H1 : ChatAPI.apiKey env_ok <> []) by discriminate.
  assert (H2 : trim (lit "Draw a login flow") <> []) by (vm_compute; discriminate).
  split; [exact H1|]. split; [exact H2|].
  exact (sendMessage_outcome parse_two_node (lit "prompt") show_number show_other
           show_type_error [] env_ok (lit "Draw a login flow") idle H1 H2).
Defined.

(** The two example turns: a response with a block gives a reply with the
    validated diagram attached and no error; a response that is not [ok]
    with the body [null] gives the apology with the TypeError's message. *)
Example sendMessage_example_ok :
  map ChatAPI.diagramData
      (ChatAPI.messages
         (fst (ChatAPI.sendMessage parse_two_node (lit "prompt") show_number
                 show_other show_type_error [] env_ok
                 (lit "Draw a login flow") idle)))
  = [None; Some two_node_diagram]
  /\ map ChatAPI.content
        (ChatAPI.messages
           (fst (ChatAPI.sendMessage parse_two_node (lit "prompt") show_number
                   show_other show_type_error [] env_failed
                   (lit "Draw a login flow") idle)))
     = [VStr (lit "Draw a login flow");
        VStr (lit "Sorry, I encountered an error: Cannot read properties of error")].
Proof. split; vm_compute; reflexivity. Qed.
